(** * Archive-version check for Bethesda games: a shallow embedding of
      [src/index.ts] and the properties of its pipeline.

    The TypeScript module reads the format version of every archive
    (.bsa / .ba2) that an enabled plugin loads, compares it with the version
    the active game expects and reports the mismatches grouped by mod.

    Layout of this development:
    - [JS]      the JavaScript string primitives the module calls;
    - [Path]    Node's [path.extname] and [path.basename] (POSIX flavour);
    - [Buf]     the [Buffer] operations of [streamArchiveVersion];
    - the data model (plugins, mods, issues, the [archiveData] table);
    - a small monad for the effects of the module: an event trace, the
      mutable counter [pos], exceptions, and promises that never settle;
    - [streamArchiveVersion], [checkForErrors], and the grouping part of
      [showMultiErrorDetailsDialog];
    - the theorems. *)

From Stdlib Require Import List String Ascii ZArith NArith Arith Lia Bool.
From Stdlib Require Import Strings.Byte.
From Stdlib Require Import Permutation.
Import ListNotations.
Local Open Scope string_scope.
Local Open Scope list_scope.

Set Implicit Arguments.

(* ===================================================================== *)
(** ** JavaScript strings *)
(* ===================================================================== *)

(** A JavaScript string is modelled as a [string] whose characters are the
    code units U+0000 .. U+00FF. *)
Module JS.

(** [String.prototype.toLowerCase] on one code unit of that range: the
    letters A-Z and the Latin-1 capitals U+00C0 .. U+00DE (the
    multiplication sign U+00D7 apart) move up by 32. *)
Definition lowerChar (c : ascii) : ascii :=
  let n := nat_of_ascii c in
  if ((65 <=? n)%nat && (n <=? 90)%nat)
     || ((192 <=? n)%nat && (n <=? 222)%nat && negb (n =? 215)%nat)
  then ascii_of_nat (n + 32) else c.

Fixpoint toLowerCase (s : string) : string :=
  match s with
  | EmptyString => EmptyString
  | String c r => String (lowerChar c) (toLowerCase r)
  end.

(** [s.startsWith(p)] *)
Definition startsWith (s p : string) : bool := String.prefix p s.

Fixpoint drop (n : nat) (s : string) : string :=
  match n, s with
  | O, _ => s
  | S _, EmptyString => EmptyString
  | S k, String _ r => drop k r
  end.

(** [s.replace(pat, rep)] with a string pattern: only the first
    occurrence of [pat] is replaced (the empty pattern matches at 0). *)
Fixpoint replace (s pat rep : string) : string :=
  if String.prefix pat s then (rep ++ drop (String.length pat) s)%string
  else match s with
       | EmptyString => EmptyString
       | String c r => String c (replace r pat rep)
       end.

(** [s.slice(from, to)] for [0 <= from] and [0 <= to]. *)
Definition slice (s : string) (from to : nat) : string :=
  String.substring from (to - from) s.


(** [a || b] where [a] is a string or [undefined] and [b] a string. *)
Definition or_else (a : option string) (b : string) : string :=
  match a with
  | Some s => if (s =? "")%string then b else s
  | None => b
  end.

(** The property key an index expression [obj[k]] uses: [undefined]
    is converted to the string "undefined". *)
Definition propertyKey (k : option string) : string :=
  match k with
  | Some s => s
  | None => "undefined"
  end.

(** [arr.join(sep)] *)
Fixpoint join (sep : string) (l : list string) : string :=
  match l with
  | [] => ""
  | [x] => x
  | x :: r => (x ++ sep ++ join sep r)%string
  end.

End JS.

(* ===================================================================== *)
(** ** Node's path module *)
(* ===================================================================== *)

Module Path.

Definition isSlash (c : ascii) : bool := (c =? "/")%char.
Definition isDot (c : ascii) : bool := (c =? ".")%char.

(** The local variables of the loop of [path.extname]. *)
Record ExtState := mkExt {
  startDot : Z;
  startPart : Z;
  endIdx : Z;
  matchedSlash : bool;
  preDotState : Z
}.

Definition extInit : ExtState := mkExt (-1) 0 (-1) true 0.

(** The loop [for (i = path.length - 1; i >= 0; --i)] of [extname]:
    [chars] holds the characters at indices [i], [i-1], ..., [0]. *)
Fixpoint extLoop (chars : list ascii) (i : Z) (st : ExtState) : ExtState :=
  match chars with
  | [] => st
  | code :: rest =>
    if isSlash code then
      if negb (matchedSlash st)
      then mkExt (startDot st) (i + 1) (endIdx st) (matchedSlash st)
                 (preDotState st)                      (* break *)
      else extLoop rest (i - 1) st                     (* continue *)
    else
      let st1 :=
        if (endIdx st =? -1)%Z
        then mkExt (startDot st) (startPart st) (i + 1) false (preDotState st)
        else st in
      let st2 :=
        if isDot code then
          if (startDot st1 =? -1)%Z
          then mkExt i (startPart st1) (endIdx st1) (matchedSlash st1)
                     (preDotState st1)
          else if negb (preDotState st1 =? 1)%Z
          then mkExt (startDot st1) (startPart st1) (endIdx st1)
                     (matchedSlash st1) 1
          else st1
        else if negb (startDot st1 =? -1)%Z
        then mkExt (startDot st1) (startPart st1) (endIdx st1)
                   (matchedSlash st1) (-1)
        else st1 in
      extLoop rest (i - 1) st2
  end.

Definition extname (path : string) : string :=
  let st := extLoop (rev (list_ascii_of_string path))
                    (Z.of_nat (String.length path) - 1) extInit in
  if (startDot st =? -1)%Z
     || (endIdx st =? -1)%Z
     || (preDotState st =? 0)%Z
     || ((preDotState st =? 1)%Z
         && (startDot st =? endIdx st - 1)%Z
         && (startDot st =? startPart st + 1)%Z)
  then ""
  else JS.slice path (Z.to_nat (startDot st)) (Z.to_nat (endIdx st)).

(** The local variables of the loop of [path.basename] (no suffix). *)
Record BaseState := mkBase {
  bStart : Z;
  bEnd : Z;
  bMatchedSlash : bool
}.

Fixpoint baseLoop (chars : list ascii) (i : Z) (st : BaseState) : BaseState :=
  match chars with
  | [] => st
  | code :: rest =>
    if isSlash code then
      if negb (bMatchedSlash st)
      then mkBase (i + 1) (bEnd st) (bMatchedSlash st)  (* break *)
      else baseLoop rest (i - 1) st
    else if (bEnd st =? -1)%Z
    then baseLoop rest (i - 1) (mkBase (bStart st) (i + 1) false)
    else baseLoop rest (i - 1) st
  end.

Definition basename (path : string) : string :=
  let st := baseLoop (rev (list_ascii_of_string path))
                     (Z.of_nat (String.length path) - 1)
                     (mkBase 0 (-1) true) in
  if (bEnd st =? -1)%Z then ""
  else JS.slice path (Z.to_nat (bStart st)) (Z.to_nat (bEnd st)).

End Path.

(* ===================================================================== *)
(** ** Buffers *)
(* ===================================================================== *)

Module Buf.

Definition Buffer := list byte.

(** [Buffer.alloc(n)]: [n] zero bytes. *)
Definition alloc (n : nat) : Buffer := repeat x00 n.

(** [buf.fill(value)] with a buffer as value: [buf] keeps its length and
    receives the bytes of [value], repeated as often as needed.  (A
    'data' event never carries an empty chunk; for an empty value the
    buffer is left as it is.) *)
Definition fill (buf value : Buffer) : Buffer :=
  match value with
  | [] => buf
  | _ :: _ =>
    map (fun i => nth (i mod List.length value) value x00)
        (seq 0 (List.length buf))
  end.

(** [buf.slice(from, to)] *)
Definition slice (buf : Buffer) (from to : nat) : Buffer :=
  firstn (to - from) (skipn from buf).

(** [buf.reduce((accum, entry) => accum += entry, 0)]: the entries of a
    buffer are unsigned bytes, the accumulator is a JavaScript number. *)
Definition sum (buf : Buffer) : N :=
  fold_left (fun accum entry => (accum + Byte.to_N entry)%N) buf 0%N.

(** The unsigned value of the byte at offset [i] (0 outside the data). *)
Definition at_ (buf : Buffer) (i : nat) : N := Byte.to_N (nth i buf x00).

End Buf.

(* ===================================================================== *)
(** ** Data model *)
(* ===================================================================== *)

(** An entry of [archiveData]. *)
Record GameData := mkGame {
  gameId : string;
  gameName : string;
  version : N;
  type : string
}.

Definition archiveData : list GameData :=
  [ mkGame "skyrim" "Skyrim (2011)" 104 "BSA";
    mkGame "skyrimse" "Skyrim Special Edition" 105 "BSA";
    mkGame "skyrimvr" "Skyrim VR" 105 "BSA";
    mkGame "oblivion" "Oblivion" 103 "BSA";
    mkGame "fallout4" "Fallout 4" 1 "BA2";
    mkGame "fallout4vr" "Fallout 4 VR" 1 "BA2";
    mkGame "fallout76" "Fallout 76" 1 "BA2" ].

(** A plugin record of the plugin-management extension, with the fields the
    module reads.  [modName] is [undefined] for a plugin no mod owns. *)
Module Plugin.
Record t := mk {
  name : string;
  isNative : bool;
  loadsArchive : bool;
  enabled : bool;
  loadOrder : Z;
  modName : option string
}.
End Plugin.

(** A mod of the installed-mods registry. *)
Module Mod.
Record Attributes := mkAttr {
  customName : option string;
  logicalFileName : option string;
  name : option string
}.
Record t := mk {
  id : string;
  attributes : Attributes
}.
End Mod.

(** [IDataArchive]: an archive file and the name of the plugin loading it. *)
Module Archive.
Record t := mk {
  name : string;
  plugin : string
}.
End Archive.

(** A plain JavaScript object used as a map from strings: its own
    properties, in the order of their creation. *)
Definition Obj (A : Type) := list (string * A).

(** The own property [k] of an object. *)
Fixpoint lookup {A : Type} (o : Obj A) (k : string) : option A :=
  match o with
  | [] => None
  | (k', v) :: r => if (k' =? k)%string then Some v else lookup r k
  end.

(** The names of the properties a plain object inherits from
    [Object.prototype]: functions, and the prototype itself under
    "__proto__". *)
Definition objectPrototypeKeys : list string :=
  ["constructor"; "__defineGetter__"; "__defineSetter__"; "hasOwnProperty";
   "__lookupGetter__"; "__lookupSetter__"; "isPrototypeOf";
   "propertyIsEnumerable"; "toString"; "valueOf"; "__proto__";
   "toLocaleString"].

Definition inherited (k : string) : bool :=
  existsb (fun p => (p =? k)%string) objectPrototypeKeys.

(** What an index expression [obj[k]] on a plain object evaluates to: the
    own property, else the inherited one (a function or the prototype,
    truthy and without the properties of a record), else [undefined]. *)
Inductive Value (A : Type) : Type :=
| Own (a : A)
| Inherited (key : string)
| Undefined.
Arguments Inherited {A} key.
Arguments Undefined {A}.

Definition getProp {A : Type} (o : Obj A) (k : string) : Value A :=
  match lookup o k with
  | Some v => Own v
  | None => if inherited k then Inherited k else Undefined
  end.

(** The value of a decimal digit. *)
Definition digitOf (c : ascii) : option N :=
  let n := N_of_ascii c in
  if ((48 <=? n) && (n <=? 57))%N then Some (n - 48)%N else None.

Fixpoint decimalOf (s : string) (acc : N) : option N :=
  match s with
  | EmptyString => Some acc
  | String c r =>
    match digitOf c with
    | Some d => decimalOf r (10 * acc + d)%N
    | None => None
    end
  end.

(** The array index a property key stands for: the canonical decimal
    string of a number below 2^32 - 1. *)
Definition arrayIndex (key : string) : option N :=
  match key with
  | EmptyString => None
  | String c r =>
    if (c =? "0")%char && negb (r =? "")%string then None
    else match decimalOf key 0 with
         | Some n => if (n <? 4294967295)%N then Some n else None
         | None => None
         end
  end.

Definition isArrayIndex (key : string) : bool :=
  match arrayIndex key with
  | Some _ => true
  | None => false
  end.

Fixpoint insertIndex (k : N * string) (l : list (N * string))
  : list (N * string) :=
  match l with
  | [] => [k]
  | y :: r => if (fst k <? fst y)%N then k :: y :: r else y :: insertIndex k r
  end.

(** [Object.keys(obj)]: the keys that are array indices in ascending
    numeric order, then the other keys in the order of their creation. *)
Definition objectKeys {A : Type} (o : Obj A) : list string :=
  let keys := map fst o in
  map snd
      (fold_right insertIndex []
                  (flat_map (fun k => match arrayIndex k with
                                      | Some n => [(n, k)]
                                      | None => []
                                      end) keys))
  ++ filter (fun k => negb (isArrayIndex k)) keys.

(** [Object.keys(obj).map(k => obj[k])]: the own values in the order of
    [Object.keys]. *)
Definition valuesOf {A : Type} (o : Obj A) : list A :=
  flat_map (fun k => match lookup o k with
                     | Some v => [v]
                     | None => []
                     end)
           (objectKeys o).

(** The object the mismatch check returns for an archive of the wrong
    version; [mod_] is the value of [mods[plugin.modName]]. *)
Module Issue.
Record t := mk {
  name : string;
  version : N;
  validVersion : N;
  plugin : option Plugin.t;
  mod_ : Value Mod.t
}.
End Issue.

(** The part of the application state the module reads:
    [selectors.activeGameId(state)], [state.persistent.mods[gameId]] and
    [state.settings.gameMode.discovered[gameId].path]. *)
Record State := mkState {
  activeGameId : string;
  persistentMods : string -> option (Obj Mod.t);
  discoveredPath : string -> option string
}.

(** [util.getSafe(state, path, fallback)] *)
Definition getSafe {A : Type} (v : option A) (fallback : A) : A :=
  match v with
  | Some a => a
  | None => fallback
  end.

(** What the file system holds: the listing of a directory ([None] when it
    cannot be listed) and, for a path, a file that cannot be opened or read,
    or the bytes of a readable file. *)
Inductive FileState :=
| Unreadable
| Readable (content : list byte).

Record World := mkWorld {
  dirs : string -> option (list string);
  files : string -> FileState
}.

(** The two library functions whose result the module only passes on:
    [path.join] and [Array.prototype.sort]. *)
Class Platform := {
  pathJoin : string -> string -> string;
  arraySort : forall A : Type, (A -> A -> Z) -> list A -> list A
}.

(* ===================================================================== *)
(** ** Effects *)
(* ===================================================================== *)

(** What the module does to its collaborators, in the order it does it. *)
Inductive Event :=
| DismissNotification (id : string)
| ReadDir (folder : option string)
| AddNotification (id : string) (pos100 total : nat) (message : string)
| CreateReadStream (filePath : string)
| StreamDestroy (filePath : string)
| SendNotification (id : string) (game : GameData) (issues : list Issue.t)
| Log (level message : string).

(** The state a run threads: the counter [pos] of [checkForErrors] and the
    events so far. *)
Record St := mkSt {
  pos : nat;
  trace : list Event
}.

(** How an asynchronous computation ends: its promise is fulfilled, it is
    rejected (an exception), or it never settles. *)
Inductive Res (A : Type) : Type :=
| Ok (a : A)
| Throw (err : string)
| Never.
Arguments Throw {A} err.
Arguments Never {A}.

Definition M (A : Type) : Type := St -> Res A * St.

Definition ret {A : Type} (a : A) : M A := fun st => (Ok a, st).

Definition bind {A B : Type} (m : M A) (f : A -> M B) : M B :=
  fun st =>
    match m st with
    | (Ok a, st') => f a st'
    | (Throw e, st') => (Throw e, st')
    | (Never, st') => (Never, st')
    end.

Definition throw {A : Type} (e : string) : M A := fun st => (Throw e, st).
Definition never {A : Type} : M A := fun st => (Never, st).

Definition emit (e : Event) : M unit :=
  fun st => (Ok tt, mkSt (pos st) (trace st ++ [e])).

Definition getPos : M nat := fun st => (Ok (pos st), st).
Definition setPos (n : nat) : M unit := fun st => (Ok tt, mkSt n (trace st)).

(** [try { m } catch (err) { h err }] *)
Definition tryCatch {A : Type} (m : M A) (h : string -> M A) : M A :=
  fun st =>
    match m st with
    | (Throw e, st') => h e st'
    | r => r
    end.

Declare Scope monad_scope.
Delimit Scope monad_scope with monad.
Notation "x <- m ;; k" := (bind m (fun x => k))
  (at level 61, m at next level, right associativity) : monad_scope.
Notation "m ;; k" := (bind m (fun _ => k))
  (at level 61, right associativity) : monad_scope.
Local Open Scope monad_scope.

(** [Bluebird.mapSeries]: the callback runs on one element after the other,
    each call waiting for the promise of the one before. *)
Fixpoint mapSeries {A B : Type} (f : A -> M B) (l : list A) : M (list B) :=
  match l with
  | [] => ret []
  | x :: r => y <- f x ;; ys <- mapSeries f r ;; ret (y :: ys)
  end.

(** [.filter(i => !!i)] on an array of objects and [undefined]s. *)
Fixpoint filterDefined {A : Type} (l : list (option A)) : list A :=
  match l with
  | [] => []
  | Some a :: r => a :: filterDefined r
  | None :: r => filterDefined r
  end.

(* ===================================================================== *)
(** ** streamArchiveVersion *)
(* ===================================================================== *)

(** The events of a read stream. *)
Inductive StreamEvent :=
| OnData (chunk : list byte)
| OnError
| OnEnd.

(** [fs.createReadStream(path, {start, end})]: a file that cannot be opened
    or read gives 'error'; a readable file gives its bytes from [start] to
    [end] inclusive in one 'data' event (none when there are no such bytes)
    and then 'end'. *)
Definition createReadStream (f : FileState) (start end_ : nat)
  : list StreamEvent :=
  match f with
  | Unreadable => [OnError]
  | Readable content =>
    match firstn (end_ - start + 1) (skipn start content) with
    | [] => [OnEnd]
    | chunk => [OnData chunk; OnEnd]
    end
  end.

(** The promise made by [new Promise((resolve, reject) => ...)]. *)
Inductive Promise (A : Type) : Type :=
| Pending
| Fulfilled (v : A)
| Rejected (err : string).
Arguments Pending {A}.
Arguments Rejected {A} err.

(** [resolve(v)]: only the first settlement counts. *)
Definition resolve {A : Type} (p : Promise A) (v : A) : Promise A :=
  match p with
  | Pending => Fulfilled v
  | _ => p
  end.

(** The body of the 'data' listener, up to [resolve]. *)
Definition versionOfChunk (chunk : list byte) : N :=
  let data := Buf.fill (Buf.alloc 9) chunk in
  let versionBytes := Buf.slice data 4 8 in
  Buf.sum versionBytes.

(** The two listeners: 'data' resolves to the version, 'error' to 0; no
    listener is registered for any other event. *)
Definition onEvent (p : Promise N) (ev : StreamEvent) : Promise N :=
  match ev with
  | OnData chunk => resolve p (versionOfChunk chunk)
  | OnError => resolve p 0%N
  | OnEnd => p
  end.

(** The promise once the stream on the first 9 bytes of a file has
    delivered its events. *)
Definition versionPromise (f : FileState) : Promise N :=
  fold_left onEvent (createReadStream f 0 8) Pending.

(** [.finally(() => stream.destroy())] runs when the promise settles and
    passes the settlement on; a pending promise makes the caller wait. *)
Definition streamArchiveVersion (w : World) (filePath : string) : M N :=
  emit (CreateReadStream filePath) ;;
  match versionPromise (files w filePath) with
  | Fulfilled v => emit (StreamDestroy filePath) ;; ret v
  | Rejected e => emit (StreamDestroy filePath) ;; throw e
  | Pending => never
  end.

(* ===================================================================== *)
(** ** checkForErrors *)
(* ===================================================================== *)

Section CheckForErrors.

Context {platform : Platform}.

(** The comparison function handed to [sort]. *)
Definition byLoadOrder (a b : Plugin.t) : Z :=
  if (Plugin.loadOrder a >? Plugin.loadOrder b)%Z then 1%Z else (-1)%Z.

(** [plugins]: the values of [pluginsObj], sorted. *)
Definition pluginsOf (pluginsObj : Obj Plugin.t) : list Plugin.t :=
  arraySort byLoadOrder (valuesOf pluginsObj).

(** [archiveLoaders]: enabled plugins that load archives and are not
    base game files. *)
Definition isArchiveLoader (p : Plugin.t) : bool :=
  negb (Plugin.isNative p) && Plugin.loadsArchive p && Plugin.enabled p.

Definition archiveLoadersOf (plugins : list Plugin.t) : list Plugin.t :=
  filter isArchiveLoader plugins.

(** [dataFolder]: an absent or empty [discovery] is falsy. *)
Definition dataFolderOf (discovery : option string) : option string :=
  match discovery with
  | Some d => if (d =? "")%string then None else Some (pathJoin d "data")
  | None => None
  end.

(** [fs.readdirAsync(dataFolder)] *)
Definition readdirAsync (w : World) (folder : option string)
  : M (list string) :=
  emit (ReadDir folder) ;;
  match folder with
  | None => throw "The path argument must be of type string"
  | Some p =>
    match dirs w p with
    | Some listing => ret listing
    | None => throw "ENOENT"
    end
  end.

(** [['.ba2', '.bsa'].includes(path.extname(f))] *)
Definition isDataArchive (f : string) : bool :=
  existsb (fun e => (e =? Path.extname f)%string) [".ba2"; ".bsa"].

(** [dataArchives] *)
Definition dataArchivesOf (dataFiles : list string) : list string :=
  filter isDataArchive dataFiles.

(** [pName] *)
Definition pNameOf (plugin : Plugin.t) : string :=
  JS.toLowerCase
    (JS.replace (Plugin.name plugin) (Path.extname (Plugin.name plugin)) "").

(** [path.basename(a).toLowerCase().startsWith(pName)] *)
Definition loads (plugin : Plugin.t) (a : string) : bool :=
  JS.startsWith (JS.toLowerCase (Path.basename a)) (pNameOf plugin).

(** The function mapped over [archiveLoaders]. *)
Definition archivesOfPlugin (dataArchives : list string) (plugin : Plugin.t)
  : list Archive.t :=
  map (fun a => Archive.mk a (Plugin.name plugin))
      (filter (loads plugin) dataArchives).

(** [archivesToCheck] *)
Definition archivesToCheckOf (archiveLoaders : list Plugin.t)
           (dataArchives : list string) : list Archive.t :=
  fold_left (fun prev cur => prev ++ cur)
            (map (archivesOfPlugin dataArchives) archiveLoaders) [].

(** [progress]: the updatable notification; [total] is
    [archivesToCheck.length]. *)
Definition progress (total : nat) (archiveName : string) : M unit :=
  p <- getPos ;;
  emit (AddNotification "checking-archives-all" (p * 100) total archiveName) ;;
  setPos (S p).

(** [path.join(dataFolder, name)]: a first argument that is not a string
    raises. *)
Definition pathJoinOpt (folder : option string) (name : string) : M string :=
  match folder with
  | Some d => ret (pathJoin d name)
  | None => throw "The path argument must be of type string"
  end.

(** The object built for an archive whose version is not the valid one. *)
Definition issueOf (gameData : GameData) (plugins : list Plugin.t)
           (mods : Obj Mod.t) (archive : Archive.t) (v : N) : Issue.t :=
  let plugin :=
    find (fun p => (Plugin.name p =? Archive.plugin archive)%string) plugins in
  let mod_ :=
    match plugin with
    | Some p => getProp mods (JS.propertyKey (Plugin.modName p))
    | None => Undefined
    end in
  Issue.mk (Archive.name archive) v (version gameData) plugin mod_.

(** The function handed to [mapSeries]. *)
Definition checkArchive (w : World) (gameData : GameData)
           (plugins : list Plugin.t) (mods : Obj Mod.t)
           (dataFolder : option string) (total : nat) (archive : Archive.t)
  : M (option Issue.t) :=
  progress total (Archive.name archive) ;;
  tryCatch
    (filePath <- pathJoinOpt dataFolder (Archive.name archive) ;;
     v <- streamArchiveVersion w filePath ;;
     if (v =? version gameData)%N then ret None
     else ret (Some (issueOf gameData plugins mods archive v)))
    (fun err => emit (Log "error" "Error checking BSA versions") ;; ret None).

(** [issues]: the results of [mapSeries] that are not [undefined]. *)
Definition issuesOf (w : World) (gameData : GameData)
           (plugins : list Plugin.t) (mods : Obj Mod.t)
           (dataFolder : option string) (archivesToCheck : list Archive.t)
  : M (list Issue.t) :=
  results <- mapSeries
               (checkArchive w gameData plugins mods dataFolder
                             (List.length archivesToCheck))
               archivesToCheck ;;
  ret (filterDefined results).

Definition checkForErrors (w : World) (state : State)
           (pluginsObj : option (Obj Plugin.t)) : M unit :=
  emit (DismissNotification "archive-errors") ;;
  let activeGameId := activeGameId state in
  match find (fun g => (gameId g =? activeGameId)%string) archiveData with
  | None => ret tt
  | Some gameData =>
    match pluginsObj with
    | None => ret tt
    | Some obj =>
      let plugins := pluginsOf obj in
      let archiveLoaders := archiveLoadersOf plugins in
      let mods := getSafe (persistentMods state activeGameId) [] in
      let discovery := discoveredPath state activeGameId in
      let dataFolder := dataFolderOf discovery in
      tryCatch
        (dataFiles <- readdirAsync w dataFolder ;;
         let dataArchives := dataArchivesOf dataFiles in
         let archivesToCheck := archivesToCheckOf archiveLoaders dataArchives in
         match archivesToCheck with
         | [] => ret tt
         | _ :: _ =>
           setPos 0 ;;
           issues <- issuesOf w gameData plugins mods dataFolder
                              archivesToCheck ;;
           emit (DismissNotification "checking-archives-all") ;;
           match issues with
           | _ :: _ => emit (SendNotification "archive-errors" gameData issues)
           | [] => emit (Log "debug" "No issues with BA2/BSA files. Total checked:")
           end
         end)
        (fun err => emit (Log "error" "Error checking for BSA errors") ;; ret tt)
    end
  end.

End CheckForErrors.

(** A run starts with no event. *)
Definition st0 : St := mkSt 0 [].

(* ===================================================================== *)
(** ** showMultiErrorDetailsDialog: grouping and labels *)
(* ===================================================================== *)

(** The property key of [cur.mod.id] for a truthy [cur.mod]: the
    identifier of a mod, and "undefined" for an inherited value, which has
    no [id]. *)
Definition modIdKey (v : Value Mod.t) : string :=
  match v with
  | Own m => Mod.id m
  | _ => JS.propertyKey None
  end.

(** The key of the group an issue goes to. *)
Definition keyOf (i : Issue.t) : string :=
  match Issue.mod_ i with
  | Undefined => "noMod"
  | v => modIdKey v
  end.

(** The own array [key] of [groupedErrors] with [cur] pushed, the array
    being created at the end of the object when the key is new. *)
Fixpoint pushOwn (groups : Obj (list Issue.t)) (key : string) (cur : Issue.t)
  : Obj (list Issue.t) :=
  match groups with
  | [] => [(key, [cur])]
  | (k, g) :: r =>
    if (k =? key)%string then (k, g ++ [cur]) :: r
    else (k, g) :: pushOwn r key cur
  end.

(** [if (!groupedErrors[key]) groupedErrors[key] = [];
    groupedErrors[key].push(cur)]: an inherited property is truthy, so no
    array is created, and it has no [push]: the call raises a TypeError
    ([None]). *)
Definition pushTo (groups : Obj (list Issue.t)) (key : string) (cur : Issue.t)
  : option (Obj (list Issue.t)) :=
  match getProp groups key with
  | Inherited _ => None
  | Own _ | Undefined => Some (pushOwn groups key cur)
  end.

(** The function mapped over [issues]. *)
Definition addIssue (groups : Obj (list Issue.t)) (cur : Issue.t)
  : option (Obj (list Issue.t)) :=
  match Issue.mod_ cur with
  | Undefined => pushTo groups "noMod" cur
  | v => pushTo groups (modIdKey v) cur
  end.

(** [groupedErrors] once [issues.map] is through; [None] when a push has
    raised. *)
Definition groupedErrorsOf (issues : list Issue.t)
  : option (Obj (list Issue.t)) :=
  fold_left (fun groups cur =>
               match groups with
               | Some g => addIssue g cur
               | None => None
               end)
            issues (Some [("noMod", [])]).

(** The groups when no push raises. *)
Definition addOwn (groups : Obj (list Issue.t)) (cur : Issue.t)
  : Obj (list Issue.t) :=
  pushOwn groups (keyOf cur) cur.

Definition ownGroupsOf (issues : list Issue.t) : Obj (list Issue.t) :=
  fold_left addOwn issues [("noMod", [])].

(** [groupedErrors[key]] for an own key. *)
Definition ownArray (groups : Obj (list Issue.t)) (key : string)
  : list Issue.t :=
  match lookup groups key with
  | Some group => group
  | None => []
  end.

(** All the results of a [map] whose function may raise. *)
Fixpoint allDefined {A : Type} (l : list (option A)) : option (list A) :=
  match l with
  | [] => Some []
  | Some a :: r =>
    match allDefined r with
    | Some rest => Some (a :: rest)
    | None => None
    end
  | None :: _ => None
  end.

(** [{id: '', attributes: {}}] *)
Definition noModRecord : Mod.t := Mod.mk "" (Mod.mkAttr None None None).

(** [key !== 'noMod' ? group[0].mod : {id: '', attributes: {}}]; [None]
    stands for a value whose [attributes] are [undefined], so that they
    cannot be read: an inherited value, or the mod of no issue. *)
Definition groupMod (key : string) (group : list Issue.t) : option Mod.t :=
  if negb (key =? "noMod")%string
  then match group with
       | i :: _ =>
         match Issue.mod_ i with
         | Own m => Some m
         | Inherited _ | Undefined => None
         end
       | [] => None
       end
  else Some noModRecord.

(** [attr.customName || attr.logicalFileName || attr.name || mod.id] *)
Definition modNameOf (m : Mod.t) : string :=
  let attr := Mod.attributes m in
  JS.or_else (Mod.customName attr)
    (JS.or_else (Mod.logicalFileName attr)
       (JS.or_else (Mod.name attr) (Mod.id m))).

(** What follows 'Incompatible Archives' in the heading of a group;
    [t] is [api.translate]. *)
Definition headingLabel (t : string -> string) (modName : string) : string :=
  if negb (modName =? "")%string then (": " ++ modName)%string
  else t "not managed by Vortex".

(** One line of a group: the archive, the plugin loading it and the games
    its version belongs to. *)
Record ArchiveError := mkArchiveError {
  aeName : string;
  aeGames : string;
  aePlugin : string
}.

(** The function mapped over a group; [a.plugin.name] cannot be read when
    the plugin is [undefined]. *)
Definition archiveErrorOf (t : string -> string) (a : Issue.t)
  : option ArchiveError :=
  let joined :=
    JS.join "/" (map gameName
                     (filter (fun g => (version g =? Issue.version a)%N)
                             archiveData)) in
  let games := if (joined =? "")%string then t "an unknown game" else joined in
  match Issue.plugin a with
  | Some p => Some (mkArchiveError (Issue.name a) games (Plugin.name p))
  | None => None
  end.

(** An element of [errorsByMod]: the empty string for an empty group,
    else a heading and the lines of the group. *)
Inductive Section_ :=
| EmptySection
| ModSection (label : string) (lines : list ArchiveError).

(** The function mapped over [Object.keys(groupedErrors)]; [None] when
    it raises a TypeError. *)
Definition sectionOf (t : string -> string) (entry : string * list Issue.t)
  : option Section_ :=
  let (key, group) := entry in
  match groupMod key group with
  | None => None
  | Some m =>
    let modName := modNameOf m in
    match group with
    | [] => Some EmptySection
    | _ :: _ =>
      match allDefined (map (archiveErrorOf t) group) with
      | Some lines => Some (ModSection (headingLabel t modName) lines)
      | None => None
      end
    end
  end.

(** [errorsByMod]; [None] when the grouping or a section raises. *)
Definition errorsByModOf (t : string -> string) (issues : list Issue.t)
  : option (list Section_) :=
  match groupedErrorsOf issues with
  | None => None
  | Some groups =>
    allDefined
      (map (fun key => sectionOf t (key, ownArray groups key))
           (objectKeys groups))
  end.

(* ===================================================================== *)
(** ** A concrete platform and test data *)
(* ===================================================================== *)

(** The segments of a path between its slashes. *)
Fixpoint splitSlash (s : string) (cur : string) : list string :=
  match s with
  | EmptyString => [cur]
  | String c r =>
    if Path.isSlash c then cur :: splitSlash r ""
    else splitSlash r (cur ++ String c "")%string
  end.

(** [normalizeString] of Node's path module on the segments of a path,
    [stack] holding the segments kept so far, the last one first: empty
    segments and "." are dropped, ".." removes the segment before it, and
    is kept where there is none to remove if the path is relative. *)
Fixpoint normalizeSegments (allowAboveRoot : bool) (segs stack : list string)
  : list string :=
  match segs with
  | [] => rev stack
  | seg :: r =>
    if ((seg =? "") || (seg =? "."))%string
    then normalizeSegments allowAboveRoot r stack
    else if (seg =? "..")%string
    then match stack with
         | top :: below =>
           if (top =? "..")%string
           then normalizeSegments allowAboveRoot r
                                  (if allowAboveRoot then seg :: stack else stack)
           else normalizeSegments allowAboveRoot r below
         | [] =>
           normalizeSegments allowAboveRoot r
                             (if allowAboveRoot then [seg] else [])
         end
    else normalizeSegments allowAboveRoot r (seg :: stack)
  end.

Definition endsWithSlash (s : string) : bool :=
  match rev (list_ascii_of_string s) with
  | c :: _ => Path.isSlash c
  | [] => false
  end.

(** [path.posix.normalize] *)
Definition normalize (path : string) : string :=
  match path with
  | EmptyString => "."
  | String c _ =>
    let isAbsolute := Path.isSlash c in
    let trailingSeparator := endsWithSlash path in
    let p := JS.join "/" (normalizeSegments (negb isAbsolute)
                                            (splitSlash path "") []) in
    if (p =? "")%string
    then if isAbsolute then "/" else if trailingSeparator then "./" else "."
    else ((if isAbsolute then "/" else "") ++ p
          ++ (if trailingSeparator then "/" else ""))%string
  end.

(** [path.posix.join(a, b)]: the arguments that are not empty, joined with
    a slash and normalised. *)
Definition joinPosix (a b : string) : string :=
  normalize (if (a =? "")%string then b
             else if (b =? "")%string then a
             else (a ++ "/" ++ b)%string).

(** An insertion sort driven by a comparison function in the manner of
    [Array.prototype.sort]: [x] moves behind [y] when [cmp x y > 0]. *)
Fixpoint insertBy {A : Type} (cmp : A -> A -> Z) (x : A) (l : list A)
  : list A :=
  match l with
  | [] => [x]
  | y :: r => if (cmp x y >? 0)%Z then y :: insertBy cmp x r else x :: y :: r
  end.

Definition sortBy (A : Type) (cmp : A -> A -> Z) (l : list A) : list A :=
  fold_right (insertBy cmp) [] l.

(** A platform for the examples: Node's POSIX [path.join], and a sort.
    What [Array.prototype.sort] does with the comparison function of the
    module, which never answers 0, is left to the engine where two load
    orders are equal; where they are all different every engine gives the
    ascending order, and so does this sort.  The examples sort plugins of
    different load orders only. *)
Definition posix : Platform :=
  {| pathJoin := joinPosix;
     arraySort := sortBy |}.

Definition bytesOf (l : list N) : list byte :=
  map (fun n => match Byte.of_N n with Some b => b | None => x00 end) l.

(** A BSA header: the magic "BSA\0", then the version as a 32-bit
    little-endian number, then the first byte of the folder offset. *)
Definition bsaHeader (v : N) : list byte := bytesOf [66; 83; 65; 0; v; 0; 0; 0; 36]%N.

(** A game in "/game" whose data directory holds [listing]; [contents]
    gives the bytes of the readable files by name. *)
Definition worldOf (listing : list string) (contents : Obj (list byte))
  : World :=
  mkWorld
    (fun d => if (d =? "/game/data")%string then Some listing else None)
    (fun p =>
       match find (fun e => (("/game/data/" ++ fst e)%string =? p)%string)
                  contents with
       | Some e => Readable (snd e)
       | None => Unreadable
       end).

(** The state of a session on [game], discovered in "/game", with the
    mods [mods]. *)
Definition stateOf (game : string) (mods : Obj Mod.t) : State :=
  mkState game
          (fun g => if (g =? game)%string then Some mods else None)
          (fun g => if (g =? game)%string then Some "/game" else None).

(** An enabled plugin that loads archives and is not a base game file. *)
Definition loader (name : string) (order : Z) (owner : option string)
  : Plugin.t :=
  Plugin.mk name false true true order owner.

(* ===================================================================== *)
(** ** Observations on runs *)
(* ===================================================================== *)

(** The result of a computation started in state [st]. *)
Definition result {A : Type} (m : M A) (st : St) : Res A := fst (m st).

(** The events a computation started in [st] has produced. *)
Definition events {A : Type} (m : M A) (st : St) : list Event :=
  trace (snd (m st)).

(** Kinds of events. *)
Definition isProgress (e : Event) : bool :=
  match e with AddNotification _ _ _ _ => true | _ => false end.

Definition isResultNotification (e : Event) : bool :=
  match e with SendNotification _ _ _ => true | _ => false end.

Definition isDirRead (e : Event) : bool :=
  match e with ReadDir _ => true | _ => false end.

Definition isArchiveRead (e : Event) : bool :=
  match e with CreateReadStream _ | StreamDestroy _ => true | _ => false end.

Definition isLog (e : Event) : bool :=
  match e with Log _ _ => true | _ => false end.

(** The events of the mismatch check of one archive. *)
Definition isCheckEvent (e : Event) : bool := isProgress e || isArchiveRead e.

Section Verdicts.

Context {platform : Platform}.
Variables (w : World) (gameData : GameData) (plugins : list Plugin.t)
          (mods : Obj Mod.t) (dataFolder : string).

(** The version the reader resolves to for the archive file [name] of
    the data folder, if its promise settles. *)
Definition detectedVersion (name : string) : option N :=
  match versionPromise (files w (pathJoin dataFolder name)) with
  | Fulfilled v => Some v
  | _ => None
  end.

(** What the callback of [mapSeries] returns once the reader has
    resolved to [v]. *)
Definition verdict (archive : Archive.t) (v : N) : option Issue.t :=
  if (v =? version gameData)%N then None
  else Some (issueOf gameData plugins mods archive v).

(** The results of [mapSeries] over [l]; [None] when some promise of
    the reader stays pending. *)
Fixpoint seriesVerdicts (l : list Archive.t)
  : option (list (option Issue.t)) :=
  match l with
  | [] => Some []
  | a :: r =>
    match detectedVersion (Archive.name a), seriesVerdicts r with
    | Some v, Some ys => Some (verdict a v :: ys)
    | _, _ => None
    end
  end.

End Verdicts.

(** The match key in the words of the specification: the file name of the
    plugin with its extension stripped, lower-cased. *)
Definition matchKeySpec (plugin : Plugin.t) : string :=
  let name := Plugin.name plugin in
  JS.toLowerCase
    (JS.slice name 0 (String.length name - String.length (Path.extname name))).

(** The extension filter in the words of the specification: the extension,
    compared without regard to case, is one of the two archive extensions. *)
Definition isDataArchiveSpec (f : string) : bool :=
  existsb (fun e => (e =? JS.toLowerCase (Path.extname f))%string)
          [".ba2"; ".bsa"].

(** Files for the examples: a Skyrim SE archive, a five-byte file and an
    empty file; "gone.bsa" is listed but cannot be read. *)
Definition sampleWorld : World :=
  worldOf ["good.bsa"; "short.bsa"; "empty.bsa"; "gone.bsa"]
          [("good.bsa", bsaHeader 105);
           ("short.bsa", bytesOf [1; 1; 1; 1; 1]%N);
           ("empty.bsa", [])].

(** The data directory of the examples on the correlator. *)
Definition upperWorld : World :=
  worldOf ["FOO.BSA"] [("FOO.BSA", bsaHeader 104)].

(** The data directory for a plugin whose name holds its extension twice. *)
Definition patchWorld : World :=
  worldOf ["my.esp.patch.bsa"] [("my.esp.patch.bsa", bsaHeader 104)].

(** Two plugins that both load "foo - textures.bsa", an archive of
    version 104, on Skyrim SE (version 105). *)
Definition fooPlugins : list Plugin.t :=
  [loader "Foo.esp" 0 (Some "foo-mod"); loader "Foo - Textures.esp" 1 None].

Definition fooWorld : World :=
  worldOf ["foo - textures.bsa"] [("foo - textures.bsa", bsaHeader 104)].

Definition fooMods : Obj Mod.t :=
  [("foo-mod", Mod.mk "foo-mod" (Mod.mkAttr None (Some "Foo") None))].

Definition skyrimse : GameData :=
  mkGame "skyrimse" "Skyrim Special Edition" 105 "BSA".

(** A session on Skyrim SE whose installation was not discovered. *)
Definition undiscovered : State :=
  mkState "skyrimse" (fun _ => None) (fun _ => None).

(** A session on a game outside the table, not discovered either. *)
Definition undiscoveredOther : State :=
  mkState "morrowind" (fun _ => None) (fun _ => None).

(** A plugin that loads the empty archive of [sampleWorld]. *)
Definition emptyPlugins : Obj Plugin.t :=
  [("empty.esp", loader "empty.esp" 0 None)].

(** Three issues: two of the mod "foo-mod", one of no mod. *)
Definition fooIssue (archive : string) (owner : Value Mod.t) : Issue.t :=
  Issue.mk archive 104 105 (Some (loader "Foo.esp" 0 (Some "foo-mod"))) owner.

Definition fooMod : Mod.t :=
  Mod.mk "foo-mod" (Mod.mkAttr None (Some "Foo") None).


(* ===================================================================== *)
(** ** Groups of the report *)
(* ===================================================================== *)


(** No own key of [groupedErrors] is the name of an inherited property. *)
Definition keysClean (groups : Obj (list Issue.t)) : Prop :=
  Forall (fun entry => inherited (fst entry) = false) groups.

(** Numbers in ascending order. *)
Fixpoint ascending (l : list N) : bool :=
  match l with
  | a :: (b :: _) as r => (a <=? b)%N && ascending r
  | _ => true
  end.

(** An issue whose mod is [undefined] or a record of the registry with an
    identifier that is not the name of an inherited property. *)
Definition plainMod (i : Issue.t) : bool :=
  match Issue.mod_ i with
  | Own m => negb (inherited (Mod.id m))
  | Inherited _ => false
  | Undefined => true
  end.

(** The element of [errorsByMod] for the key [key] is built from the
    issues of that key, in their order: the empty string when there is
    none, else a heading and one line for each. *)
Definition sectionFor (t : string -> string) (issues : list Issue.t)
           (key : string) (s : Section_) : Prop :=
  let group := filter (fun i => (keyOf i =? key)%string) issues in
  (group = [] /\ s = EmptySection)
  \/ (exists label lines,
         s = ModSection label lines
         /\ group <> []
         /\ map (archiveErrorOf t) group = map Some lines).

(* ===================================================================== *)
(** ** Further observations *)
(* ===================================================================== *)

(** The 32-bit little-endian number in the bytes 4 to 7 of a header, the
    version field of the archive formats. *)
Definition littleEndian32 (content : list byte) : N :=
  (Buf.at_ content 4 + 256 * Buf.at_ content 5
   + 65536 * Buf.at_ content 6 + 16777216 * Buf.at_ content 7)%N.

Section SeriesEvents.

Context {platform : Platform}.
Variables (w : World) (dataFolder : string) (total : nat).

(** The events of the mismatch check over the archives [l], the counter
    standing at [k]: for each archive the progress notification and the
    stream on its file, destroyed once its promise has settled; the series
    stops at the first stream whose promise stays pending. *)
Fixpoint seriesEvents (k : nat) (l : list Archive.t) : list Event :=
  match l with
  | [] => []
  | c :: r =>
    let filePath := pathJoin dataFolder (Archive.name c) in
    AddNotification "checking-archives-all" (k * 100) total (Archive.name c)
    :: CreateReadStream filePath
    :: match detectedVersion w dataFolder (Archive.name c) with
       | Some _ => StreamDestroy filePath :: seriesEvents (S k) r
       | None => []
       end
  end.

End SeriesEvents.

(** The calls of the module on its read streams over a sequence of
    events, [pending] being the stream it has created and not yet called
    [destroy] on: a stream is created only when none is pending, and the
    stream destroyed is the pending one.  The result is the stream still
    pending at the end, or [None] when a call breaks this order.  (Whether
    the file of a stream is open is no event of the module: Node closes a
    stream that has ended or failed by itself.) *)
Fixpoint destroyPending (pending : option string) (evs : list Event)
  : option (option string) :=
  match evs with
  | [] => Some pending
  | CreateReadStream p :: r =>
    match pending with
    | None => destroyPending (Some p) r
    | Some _ => None
    end
  | StreamDestroy p :: r =>
    match pending with
    | Some q => if (q =? p)%string then destroyPending None r else None
    | None => None
    end
  | _ :: r => destroyPending pending r
  end.

(** What a run reports at its end for the issues found. *)
Definition reportOf (gameData : GameData) (issues : list Issue.t) : Event :=
  match issues with
  | [] => Log "debug" "No issues with BA2/BSA files. Total checked:"
  | _ :: _ => SendNotification "archive-errors" gameData issues
  end.

(** A string without a slash: the name of a directory entry. *)
Definition noSlash (s : string) : bool :=
  forallb (fun c => negb (Path.isSlash c)) (list_ascii_of_string s).

(** A string with neither a slash nor a dot. *)
Definition plain (s : string) : bool :=
  forallb (fun c => negb (Path.isSlash c) && negb (Path.isDot c))
          (list_ascii_of_string s).

(** The plugin object of [fooPlugins]. *)
Definition fooObj : Obj Plugin.t :=
  [("Foo.esp", loader "Foo.esp" 0 (Some "foo-mod"));
   ("Foo - Textures.esp", loader "Foo - Textures.esp" 1 None)].

(** The issues of [fooWorld] on Skyrim SE: one for each of the two
    plugins. *)
Definition fooReported : list Issue.t :=
  [Issue.mk "foo - textures.bsa" 104 105
            (Some (loader "Foo.esp" 0 (Some "foo-mod"))) (Own fooMod);
   Issue.mk "foo - textures.bsa" 104 105
            (Some (loader "Foo - Textures.esp" 1 None)) Undefined].

(** A plugin that loads the unreadable archive of [sampleWorld], and one
    that loads nothing. *)
Definition goneObj : Obj Plugin.t := [("gone.esp", loader "gone.esp" 0 None)].

Definition idleObj : Obj Plugin.t := [("Idle.esp", loader "Idle.esp" 0 None)].

(** A data directory with an empty archive "fo.bsa" next to "foo.bsa", an
    archive of version 104, and two plugins that both load "foo.bsa"; the
    first also loads "fo.bsa". *)
Definition stuckWorld : World :=
  worldOf ["fo.bsa"; "foo.bsa"] [("fo.bsa", []); ("foo.bsa", bsaHeader 104)].

Definition stuckPlugins : list Plugin.t :=
  [loader "Fo.esp" 0 None; loader "Foo.esp" 1 None].

Definition stuckObj : Obj Plugin.t :=
  [("Fo.esp", loader "Fo.esp" 0 None); ("Foo.esp", loader "Foo.esp" 1 None)].

(** A plugin whose mod name is the name of a property every plain object
    inherits, and a mod with that identifier. *)
Definition ctorPlugin : Plugin.t := loader "Foo.esp" 0 (Some "constructor").

Definition ctorObj : Obj Plugin.t := [("Foo.esp", ctorPlugin)].

Definition ctorMod : Mod.t :=
  Mod.mk "constructor" (Mod.mkAttr None None (Some "Constructor")).

Definition ctorMods : Obj Mod.t := [("constructor", ctorMod)].

(** Two archives of version 104 that "Foo.esp" loads. *)
Definition ctorWorld : World :=
  worldOf ["foo.bsa"; "foo - textures.bsa"]
          [("foo.bsa", bsaHeader 104); ("foo - textures.bsa", bsaHeader 104)].

(** The issue of the archive [archive] of [ctorWorld] on Skyrim SE. *)
Definition ctorIssue (archive : string) (owner : Value Mod.t) : Issue.t :=
  Issue.mk archive 104 105 (Some ctorPlugin) owner.

(** Mods with numbers as identifiers. *)
Definition numberedIssues : list Issue.t :=
  [fooIssue "a.bsa" (Own (Mod.mk "42" (Mod.mkAttr None None None)));
   fooIssue "b.bsa" Undefined;
   fooIssue "c.bsa" (Own (Mod.mk "7" (Mod.mkAttr None None None)));
   fooIssue "d.bsa" (Own fooMod)].

(* ===================================================================== *)
(** ** The header version reader *)
(* ===================================================================== *)

Lemma versionPromise_unreadable : versionPromise Unreadable = Fulfilled 0%N.
Proof. reflexivity. Qed.

Lemma versionPromise_empty : versionPromise (Readable []) = Pending.
Proof. reflexivity. Qed.

(** With nine bytes or more the chunk is the first nine bytes, the buffer
    is a copy of it, and the version is the sum of its bytes 4 to 7. *)
Lemma versionPromise_long (content : list byte) :
  9 <= List.length content ->
  versionPromise (Readable content)
  = Fulfilled (Buf.at_ content 4 + Buf.at_ content 5
               + Buf.at_ content 6 + Buf.at_ content 7)%N.
Proof.
  intros Hlen.
  do 9 (destruct content as [|? content]; [simpl in Hlen; lia|]).
  reflexivity.
Qed.

(** With one to eight bytes the chunk is the whole file, and [fill] repeats
    it until the nine bytes of the buffer are written. *)
Lemma versionPromise_short (content : list byte) (n : nat) :
  n = List.length content -> 1 <= n < 9 ->
  versionPromise (Readable content)
  = Fulfilled (Buf.at_ content (4 mod n) + Buf.at_ content (5 mod n)
               + Buf.at_ content (6 mod n) + Buf.at_ content (7 mod n))%N.
Proof.
  intros -> Hlen.
  destruct content as [|b0 content]; [simpl in Hlen; lia|].
  do 8 (destruct content as [|? content]; [reflexivity|]).
  simpl in Hlen; lia.
Qed.

(** The promise of the reader is never rejected: [reject] is not called. *)
Lemma versionPromise_not_rejected (f : FileState) (e : string) :
  versionPromise f <> Rejected e.
Proof.
  destruct f as [|content]; [discriminate|].
  unfold versionPromise, createReadStream.
  destruct (firstn (8 - 0 + 1) (skipn 0 content)); discriminate.
Qed.

(** The run of [streamArchiveVersion], by the state of the promise. *)
Lemma streamArchiveVersion_run (w : World) (filePath : string) (st : St) :
  streamArchiveVersion w filePath st
  = match versionPromise (files w filePath) with
    | Fulfilled v =>
      (Ok v, mkSt (pos st)
                  (trace st ++ [CreateReadStream filePath; StreamDestroy filePath]))
    | Rejected e =>
      (Throw e, mkSt (pos st)
                     (trace st ++ [CreateReadStream filePath; StreamDestroy filePath]))
    | Pending => (Never, mkSt (pos st) (trace st ++ [CreateReadStream filePath]))
    end.
Proof.
  unfold streamArchiveVersion, bind, emit, ret, throw, never; simpl.
  destruct (versionPromise (files w filePath)); simpl;
    rewrite <- ?app_assoc; reflexivity.
Qed.

(** C1 (as amended).  [streamArchiveVersion] fulfils its promise with the
    unsigned sum of the bytes at offsets 4 to 7 for every file of nine bytes
    or more, and with 0 for every file that cannot be read.  For a file of
    [n] bytes, [1 <= n < 9], it fulfils the promise with the sum of the
    bytes at offsets [4 mod n] to [7 mod n]: the nine-byte buffer is filled
    with the file repeated.  It raises for no file. *)
Theorem streamArchiveVersion_result (w : World) (filePath : string) (st : St) :
  (forall content,
      files w filePath = Readable content ->
      9 <= List.length content ->
      result (streamArchiveVersion w filePath) st
      = Ok (Buf.at_ content 4 + Buf.at_ content 5
            + Buf.at_ content 6 + Buf.at_ content 7)%N)
  /\ (files w filePath = Unreadable ->
      result (streamArchiveVersion w filePath) st = Ok 0%N)
  /\ (forall content n,
         files w filePath = Readable content ->
         n = List.length content -> 1 <= n < 9 ->
         result (streamArchiveVersion w filePath) st
         = Ok (Buf.at_ content (4 mod n) + Buf.at_ content (5 mod n)
               + Buf.at_ content (6 mod n) + Buf.at_ content (7 mod n))%N)
  /\ (forall e, result (streamArchiveVersion w filePath) st <> Throw e).
Proof.
  unfold result; rewrite streamArchiveVersion_run.
  repeat split.
  - intros content Hf Hlen.
    rewrite Hf, (versionPromise_long content Hlen); reflexivity.
  - intros Hf; rewrite Hf; reflexivity.
  - intros content n Hf Hn Hlen.
    rewrite Hf, (versionPromise_short content Hn Hlen); reflexivity.
  - intros e.
    pose proof (versionPromise_not_rejected (files w filePath)) as Hnr.
    destruct (versionPromise (files w filePath)); simpl; try discriminate.
    exfalso; eapply Hnr; reflexivity.
Qed.

Lemma streamArchiveVersion_result_witness :
  result (streamArchiveVersion sampleWorld "/game/data/good.bsa") st0 = Ok 105%N
  /\ result (streamArchiveVersion sampleWorld "/game/data/gone.bsa") st0 = Ok 0%N
  /\ result (streamArchiveVersion sampleWorld "/game/data/short.bsa") st0 = Ok 4%N.
Proof.
  split; [|split].
  - exact (proj1 (streamArchiveVersion_result sampleWorld "/game/data/good.bsa" st0)
                 (bsaHeader 105) eq_refl (le_n 9)).
  - exact (proj1 (proj2 (streamArchiveVersion_result sampleWorld
                           "/game/data/gone.bsa" st0)) eq_refl).
  - exact (proj1 (proj2 (proj2 (streamArchiveVersion_result sampleWorld
                                  "/game/data/short.bsa" st0)))
                 (bytesOf [1; 1; 1; 1; 1]%N) 5 eq_refl eq_refl
                 (conj (le_S _ _ (le_S _ _ (le_S _ _ (le_S _ _ (le_n 1)))))
                       (le_S _ _ (le_S _ _ (le_S _ _ (le_n 6)))))).
Defined.

(** C1, the claim as written fails: a readable file of five bytes, each of
    them 1, is shorter than nine bytes and its version is 4, not the
    sentinel 0. *)
Lemma short_file_not_sentinel :
  files sampleWorld "/game/data/short.bsa" = Readable (bytesOf [1; 1; 1; 1; 1]%N)
  /\ List.length (bytesOf [1; 1; 1; 1; 1]%N) < 9
  /\ result (streamArchiveVersion sampleWorld "/game/data/short.bsa") st0 = Ok 4%N
  /\ result (streamArchiveVersion sampleWorld "/game/data/short.bsa") st0 <> Ok 0%N.
Proof.
  repeat split; try reflexivity.
  - simpl; lia.
  - discriminate.
Qed.

(* ===================================================================== *)
(** ** The mismatch detector *)
(* ===================================================================== *)

Section Detector.

Context {platform : Platform}.
Variables (w : World) (gameData : GameData) (plugins : list Plugin.t)
          (mods : Obj Mod.t) (dataFolder : string).

Local Abbreviation detected := (detectedVersion w dataFolder).
Local Abbreviation verdictOf := (verdict gameData plugins mods).
Local Abbreviation check :=
  (checkArchive w gameData plugins mods (Some dataFolder)).

(** One call of the callback: the progress notification, then the read. *)
Lemma checkArchive_run (total : nat) (a : Archive.t) (st : St) :
  let filePath := pathJoin dataFolder (Archive.name a) in
  let shown := AddNotification "checking-archives-all" (pos st * 100) total
                               (Archive.name a) in
  check total a st
  = match detected (Archive.name a) with
    | Some v =>
      (Ok (verdictOf a v),
       mkSt (S (pos st))
            (trace st ++ [shown; CreateReadStream filePath;
                          StreamDestroy filePath]))
    | None =>
      (Never,
       mkSt (S (pos st)) (trace st ++ [shown; CreateReadStream filePath]))
    end.
Proof.
  intros filePath shown.
  unfold checkArchive, progress, pathJoinOpt, tryCatch, bind, getPos, setPos,
    emit, ret, detectedVersion, verdict; simpl.
  rewrite streamArchiveVersion_run; fold filePath; simpl.
  pose proof (versionPromise_not_rejected (files w filePath)) as Hnr.
  destruct (versionPromise (files w filePath)) as [|v|e]; simpl.
  - rewrite <- app_assoc; reflexivity.
  - destruct (v =? version gameData)%N; rewrite <- app_assoc; reflexivity.
  - exfalso; apply (Hnr e); reflexivity.
Qed.

(** The whole series: its result is [seriesVerdicts], whatever the state
    it starts in, and it adds only events of the checks. *)
Lemma mapSeries_run (total : nat) (l : list Archive.t) (st : St) :
  exists evs n,
    mapSeries (check total) l st
    = (match seriesVerdicts w gameData plugins mods dataFolder l with
       | Some ys => Ok ys
       | None => Never
       end, mkSt n (trace st ++ evs))
    /\ forallb isCheckEvent evs = true
    /\ (l <> [] -> existsb isProgress evs = true).
Proof.
  revert st; induction l as [|a l IH]; intros st.
- exists [], (pos st); simpl; rewrite app_nil_r.
  destruct st; repeat split; congruence.
- simpl; unfold bind at 1.
  rewrite checkArchive_run.
  destruct (detected (Archive.name a)) as [v|].
  + unfold bind at 1.
    match goal with |- context [mapSeries _ l ?s] =>
      destruct (IH s) as (evs & n & Hrun & Hevs & _); rewrite Hrun end.
    simpl in *.
    destruct (seriesVerdicts w gameData plugins mods dataFolder l);
      eexists (_ :: _ :: _ :: evs), n;
      (split; [unfold ret; rewrite <- app_assoc; reflexivity|]);
      split; simpl; auto.
  + eexists [_; _], _; split; [reflexivity|]; split; simpl; auto.
Qed.

Lemma issuesOf_run (l : list Archive.t) (st : St) :
  exists evs n,
    issuesOf w gameData plugins mods (Some dataFolder) l st
    = (match seriesVerdicts w gameData plugins mods dataFolder l with
       | Some ys => Ok (filterDefined ys)
       | None => Never
       end, mkSt n (trace st ++ evs))
    /\ forallb isCheckEvent evs = true
    /\ (l <> [] -> existsb isProgress evs = true).
Proof.
  destruct (mapSeries_run (List.length l) l st) as (evs & n & Hrun & Hevs).
  exists evs, n; split; [|exact Hevs].
  unfold issuesOf, bind; rewrite Hrun.
  destruct (seriesVerdicts w gameData plugins mods dataFolder l); reflexivity.
Qed.

(** When every read settles the series goes through all the archives. *)
Lemma seriesVerdicts_settled (l : list Archive.t) :
  (forall c, In c l -> detected (Archive.name c) <> None) ->
  exists vs,
    seriesVerdicts w gameData plugins mods dataFolder l = Some vs
    /\ Forall2 (fun c r => exists v,
                    detected (Archive.name c) = Some v /\ r = verdictOf c v)
               l vs.
Proof.
  induction l as [|a l IH]; intros Hall.
  - exists []; split; [reflexivity|constructor].
  - destruct IH as (vs & Hvs & HF); [intros c Hc; apply Hall; right; exact Hc|].
    simpl; rewrite Hvs.
    destruct (detected (Archive.name a)) as [v|] eqn:Hv.
    + exists (verdictOf a v :: vs); split; [reflexivity|].
      constructor; [exists v; split; [exact Hv|reflexivity]|exact HF].
    + exfalso; apply (Hall a); [left; reflexivity|exact Hv].
Qed.

(** A pending read anywhere in the series leaves the series pending. *)
Lemma seriesVerdicts_pending (l : list Archive.t) (c : Archive.t) :
  In c l -> detected (Archive.name c) = None ->
  seriesVerdicts w gameData plugins mods dataFolder l = None.
Proof.
  induction l as [|a l IH]; intros Hin Hc; [contradiction|].
  simpl; destruct Hin as [->|Hin].
  - rewrite Hc; reflexivity.
  - rewrite (IH Hin Hc); destruct (detected (Archive.name a)); reflexivity.
Qed.

End Detector.

(** Without a data folder [path.join] raises inside the callback, which
    logs the error and returns nothing. *)
Lemma checkArchive_run_undefined {platform : Platform} (w : World)
      (gameData : GameData) (plugins : list Plugin.t) (mods : Obj Mod.t)
      (total : nat) (a : Archive.t) (st : St) :
  result (checkArchive w gameData plugins mods None total a) st = Ok None.
Proof. reflexivity. Qed.

Lemma mapSeries_undefined {platform : Platform} (w : World)
      (gameData : GameData) (plugins : list Plugin.t) (mods : Obj Mod.t)
      (total : nat) (l : list Archive.t) (st : St) :
  result (mapSeries (checkArchive w gameData plugins mods None total) l) st
  = Ok (map (fun _ => None) l).
Proof.
  revert st; induction l as [|a l IH]; intros st; [reflexivity|].
  unfold result in *; simpl; unfold bind at 1.
  destruct (checkArchive w gameData plugins mods None total a st) as [r st1] eqn:Hc.
  pose proof (checkArchive_run_undefined w gameData plugins mods total a st) as Hr.
  unfold result in Hr; rewrite Hc in Hr; simpl in Hr; subst r.
  unfold bind at 1.
  specialize (IH st1).
  destruct (mapSeries (checkArchive w gameData plugins mods None total) l st1)
    as [r2 st2]; simpl in IH; subst r2; reflexivity.
Qed.

(** X16.  For every candidate the reader resolves for, the mismatch check
    returns nothing when the version is the one the game expects, and
    otherwise an issue with the name of the archive, the version read, the
    expected version, the plugin found by name and the value of
    [mods[plugin.modName]]: the entry of the registry under the mod name of
    the plugin (under "undefined" for a plugin without a mod name), else
    what a plain object inherits under that name, else [undefined]; with no
    plugin of that name the mod is [undefined].  Over a series in which
    every read settles, the issues are exactly those of the candidates
    whose version differs. *)
Theorem checkArchive_issue_iff_mismatch {platform : Platform} (w : World)
        (gameData : GameData) (plugins : list Plugin.t) (mods : Obj Mod.t)
        (dataFolder : string) :
  (forall (total : nat) (c : Archive.t) (v : N) (st : St),
      detectedVersion w dataFolder (Archive.name c) = Some v ->
      (v = version gameData ->
       result (checkArchive w gameData plugins mods (Some dataFolder) total c) st
       = Ok None)
      /\ (v <> version gameData ->
          exists i,
            result (checkArchive w gameData plugins mods (Some dataFolder) total c) st
            = Ok (Some i)
            /\ Issue.name i = Archive.name c
            /\ Issue.version i = v
            /\ Issue.validVersion i = version gameData
            /\ Issue.plugin i
               = find (fun p => (Plugin.name p =? Archive.plugin c)%string) plugins
            /\ Issue.mod_ i
               = match Issue.plugin i with
                 | Some p => getProp mods (JS.propertyKey (Plugin.modName p))
                 | None => Undefined
                 end))
  /\ (forall (candidates : list Archive.t) (st : St),
         (forall c, In c candidates ->
                    detectedVersion w dataFolder (Archive.name c) <> None) ->
         exists issues,
           result (issuesOf w gameData plugins mods (Some dataFolder) candidates) st
           = Ok issues
           /\ forall i,
               In i issues <->
               exists c v,
                 In c candidates
                 /\ detectedVersion w dataFolder (Archive.name c) = Some v
                 /\ v <> version gameData
                 /\ i = issueOf gameData plugins mods c v).
Proof.
  split.
  - intros total c v st Hv.
    unfold result; rewrite checkArchive_run, Hv; simpl; unfold verdict.
    split; intros Hcmp.
    + apply N.eqb_eq in Hcmp; rewrite Hcmp; reflexivity.
    + apply N.eqb_neq in Hcmp; rewrite Hcmp.
      eexists; split; [reflexivity|]; simpl; repeat split.
  - intros candidates st Hall.
    destruct (@seriesVerdicts_settled _ w gameData plugins mods dataFolder
                candidates Hall)
      as (vs & Hvs & HF).
    destruct (issuesOf_run w gameData plugins mods dataFolder candidates st)
      as (evs & n & Hrun & _).
    exists (filterDefined vs); split.
    + unfold result; rewrite Hrun, Hvs; reflexivity.
    + clear Hrun Hvs Hall.
      induction HF as [|c r l vs (v & Hv & Hr) HF IH]; intros i.
      * simpl; split; [contradiction|intros (c & v & [] & _)].
      * assert (Hhead :
                  forall i, (exists c' v', c' = c /\
                      detectedVersion w dataFolder (Archive.name c') = Some v'
                      /\ v' <> version gameData
                      /\ i = issueOf gameData plugins mods c' v')
                   <-> r = Some i).
        { intros j; subst r; unfold verdict; split.
          - intros (c' & v' & -> & Hv' & Hne & ->).
            rewrite Hv in Hv'; injection Hv' as <-.
            apply N.eqb_neq in Hne; rewrite Hne; reflexivity.
          - destruct (v =? version gameData)%N eqn:Hcmp; [discriminate|].
            intros [= <-]; exists c, v; repeat split; auto.
            apply N.eqb_neq; exact Hcmp. }
        split.
        -- intros Hin.
           destruct r as [j|]; simpl in Hin.
           ++ destruct Hin as [<-|Hin].
              ** destruct (proj2 (Hhead j) eq_refl) as (c' & v' & -> & H1 & H2 & H3).
                 exists c, v'; repeat split; auto; left; reflexivity.
              ** destruct (proj1 (IH i) Hin) as (c' & v' & H0 & H1).
                 exists c', v'; split; [right; exact H0|exact H1].
           ++ destruct (proj1 (IH i) Hin) as (c' & v' & H0 & H1).
              exists c', v'; split; [right; exact H0|exact H1].
        -- intros (c' & v' & [<-|Hin] & H1 & H2 & H3).
           ++ rewrite (proj1 (Hhead i)); [left; reflexivity|].
              exists c, v'; repeat split; auto.
           ++ assert (In i (filterDefined vs)) as Hi
                 by (apply IH; exists c', v'; repeat split; auto).
              destruct r; simpl; auto.
Qed.

(** C8.  The issues the mismatch detector yields for a list of candidates,
    or the fact that it never finishes, depend on the file contents, the
    plugins, the mods and the candidates only, not on the state a run
    starts in (the notifications shown so far, the counter): two runs on
    the same inputs end alike, with the same issues in the same order. *)
Theorem issuesOf_deterministic {platform : Platform} (w : World)
        (gameData : GameData) (plugins : list Plugin.t) (mods : Obj Mod.t)
        (dataFolder : option string) (candidates : list Archive.t)
        (st1 st2 : St) :
  result (issuesOf w gameData plugins mods dataFolder candidates) st1
  = result (issuesOf w gameData plugins mods dataFolder candidates) st2.
Proof.
  destruct dataFolder as [df|].
  - destruct (issuesOf_run w gameData plugins mods df candidates st1)
      as (evs1 & n1 & Hrun1 & _).
    destruct (issuesOf_run w gameData plugins mods df candidates st2)
      as (evs2 & n2 & Hrun2 & _).
    unfold result; rewrite Hrun1, Hrun2; reflexivity.
  - assert (Hgen : forall st,
               result (issuesOf w gameData plugins mods None candidates) st
               = Ok (filterDefined (map (fun _ => None) candidates))).
    { intros st.
      pose proof (mapSeries_undefined w gameData plugins mods
                    (List.length candidates) candidates st) as Hm.
      unfold result, issuesOf, bind in *.
      destruct (mapSeries _ candidates st) as [r st']; simpl in Hm; subst r.
      reflexivity. }
    rewrite (Hgen st1), (Hgen st2); reflexivity.
Qed.

(* ===================================================================== *)
(** ** The pipeline *)
(* ===================================================================== *)

Lemma find_game_absent (l : list GameData) (game : string) :
  ~ In game (map gameId l) ->
  find (fun g => (gameId g =? game)%string) l = None.
Proof.
  induction l as [|g l IH]; intros Hnot; [reflexivity|].
  simpl in *.
  destruct (String.eqb_spec (gameId g) game) as [Heq|_].
  - exfalso; apply Hnot; left; exact Heq.
  - apply IH; intros Hin; apply Hnot; right; exact Hin.
Qed.

Section Pipeline.

Context {platform : Platform}.
Variables (w : World) (state : State).

Local Abbreviation game := (activeGameId state).
Local Abbreviation folder := (dataFolderOf (discoveredPath state game)).

(** A game outside the table: the run ends after the first dismissal. *)
Lemma checkForErrors_unsupported (pluginsObj : option (Obj Plugin.t)) (st : St) :
  find (fun g => (gameId g =? game)%string) archiveData = None ->
  checkForErrors w state pluginsObj st
  = (Ok tt, mkSt (pos st) (trace st ++ [DismissNotification "archive-errors"])).
Proof.
  intros Hfind; unfold checkForErrors, bind, emit, ret; cbv beta iota zeta.
  rewrite Hfind; reflexivity.
Qed.

(** No plugin object: the same. *)
Lemma checkForErrors_no_plugins (st : St) :
  checkForErrors w state None st
  = (Ok tt, mkSt (pos st) (trace st ++ [DismissNotification "archive-errors"])).
Proof.
  unfold checkForErrors, bind, emit, ret; cbv beta iota zeta.
  destruct (find _ archiveData); reflexivity.
Qed.

(** The listing fails: the exception reaches the outer handler. *)
Lemma checkForErrors_listing_fails (gameData : GameData)
      (obj : Obj Plugin.t) (st : St) :
  find (fun g => (gameId g =? game)%string) archiveData = Some gameData ->
  folder = None \/ (exists df, folder = Some df /\ dirs w df = None) ->
  checkForErrors w state (Some obj) st
  = (Ok tt,
     mkSt (pos st)
          (trace st ++ [DismissNotification "archive-errors"; ReadDir folder;
                        Log "error" "Error checking for BSA errors"])).
Proof.
  intros Hfind Hfail.
  unfold checkForErrors, bind at 1, emit at 1; cbv beta iota zeta.
  rewrite Hfind.
  unfold tryCatch, readdirAsync, bind, emit, throw, ret; simpl.
  destruct Hfail as [Hnone|(df & Hdf & Hdir)].
  - rewrite Hnone; simpl; rewrite <- !app_assoc; reflexivity.
  - rewrite Hdf, Hdir; simpl; rewrite <- !app_assoc; reflexivity.
Qed.

(** The listing succeeds and there is something to check: the series
    runs; if it ends the progress notification is dismissed and the
    outcome is reported, if it does not the run stops inside it. *)
Lemma checkForErrors_checks (gameData : GameData) (obj : Obj Plugin.t)
      (df : string) (listing : list string) (st : St) :
  let plugins := pluginsOf obj in
  let mods := getSafe (persistentMods state game) [] in
  let candidates :=
    archivesToCheckOf (archiveLoadersOf plugins) (dataArchivesOf listing) in
  find (fun g => (gameId g =? game)%string) archiveData = Some gameData ->
  folder = Some df -> dirs w df = Some listing -> candidates <> [] ->
  exists evs n,
    forallb isCheckEvent evs = true
    /\ existsb isProgress evs = true
    /\ checkForErrors w state (Some obj) st
       = match seriesVerdicts w gameData plugins mods df candidates with
         | None =>
           (Never,
            mkSt n (trace st ++ [DismissNotification "archive-errors";
                                 ReadDir (Some df)] ++ evs))
         | Some vs =>
           (Ok tt,
            mkSt n (trace st ++ [DismissNotification "archive-errors";
                                 ReadDir (Some df)] ++ evs
                             ++ [DismissNotification "checking-archives-all";
                                 match filterDefined vs with
                                 | [] => Log "debug"
                                             "No issues with BA2/BSA files. Total checked:"
                                 | issues =>
                                   SendNotification "archive-errors" gameData issues
                                 end]))
         end.
Proof.
  intros plugins mods candidates Hfind Hdf Hdir Hne.
  destruct (issuesOf_run w gameData plugins mods df candidates
              (mkSt 0 ((trace st ++ [DismissNotification "archive-errors"])
                         ++ [ReadDir (Some df)])))
    as (evs & n & Hrun & Hevs & Hprog).
  exists evs, n; split; [exact Hevs|]; split; [exact (Hprog Hne)|].
  unfold checkForErrors, bind at 1, emit at 1; cbv beta iota zeta.
  rewrite Hfind, Hdf.
  unfold tryCatch, readdirAsync, bind at 1, bind at 1, emit at 1; simpl.
  rewrite Hdir; unfold ret at 1.
  fold plugins mods candidates.
  destruct candidates as [|c cs] eqn:Hc; [congruence|].
  unfold bind at 1, setPos; simpl pos; simpl trace.
  unfold bind at 1; rewrite Hrun.
  destruct (seriesVerdicts w gameData plugins mods df (c :: cs)) as [vs|];
    simpl.
  - unfold bind, emit; simpl.
    destruct (filterDefined vs); simpl; rewrite <- !app_assoc; reflexivity.
  - rewrite <- !app_assoc; reflexivity.
Qed.

End Pipeline.

(** C6.  When the active game is not in [archiveData] the run ends at
    once: its only event is the dismissal of the former 'archive-errors'
    notification, so it shows no progress and no result notification and
    reads neither the data directory nor any archive. *)
Theorem checkForErrors_unsupported_game {platform : Platform} (w : World)
        (state : State) (pluginsObj : option (Obj Plugin.t)) :
  ~ In (activeGameId state) (map gameId archiveData) ->
  let evs := events (checkForErrors w state pluginsObj) st0 in
  result (checkForErrors w state pluginsObj) st0 = Ok tt
  /\ evs = [DismissNotification "archive-errors"]
  /\ filter isProgress evs = []
  /\ filter isResultNotification evs = []
  /\ filter isDirRead evs = []
  /\ filter isArchiveRead evs = []
  /\ filter isLog evs = [].
Proof.
  intros Habsent evs; subst evs; unfold result, events.
  rewrite (checkForErrors_unsupported w state pluginsObj st0
             (find_game_absent archiveData _ Habsent)).
  simpl; repeat split.
Qed.

(** C7 (as amended).  On a supported game with a plugin object, when the
    data folder is undefined or cannot be listed, the run completes without
    raising, shows no progress and no result notification and reads no
    archive; its events are the dismissal of the former 'archive-errors'
    notification, the attempt to list the folder and one error entry in the
    log. *)
Theorem checkForErrors_unlistable {platform : Platform} (w : World)
        (state : State) (obj : Obj Plugin.t) :
  let folder := dataFolderOf (discoveredPath state (activeGameId state)) in
  let evs := events (checkForErrors w state (Some obj)) st0 in
  In (activeGameId state) (map gameId archiveData) ->
  folder = None \/ (exists df, folder = Some df /\ dirs w df = None) ->
  result (checkForErrors w state (Some obj)) st0 = Ok tt
  /\ evs = [DismissNotification "archive-errors"; ReadDir folder;
            Log "error" "Error checking for BSA errors"]
  /\ filter isProgress evs = []
  /\ filter isResultNotification evs = []
  /\ filter isArchiveRead evs = []
  /\ List.length (filter isLog evs) = 1.
Proof.
  intros folder evs Hin Hfail; subst evs; unfold result, events.
  destruct (find (fun g => (gameId g =? activeGameId state)%string) archiveData)
    as [gameData|] eqn:Hfind.
  - rewrite (checkForErrors_listing_fails w state obj st0 Hfind Hfail).
    simpl; repeat split.
  - exfalso.
    apply in_map_iff in Hin; destruct Hin as (g & Hg & Hin).
    apply (find_none _ _ Hfind) in Hin.
    rewrite Hg, String.eqb_refl in Hin; discriminate.
Qed.

(** C10.  A readable file of length 0 gives neither a 'data' nor an
    'error' event, so the promise of [streamArchiveVersion] stays pending
    (and the stream is not destroyed by the module).  A run of the pipeline
    with such a file among the archives to check never completes: the
    progress notification has been shown and is never dismissed.  Such an
    input exists. *)
Theorem empty_archive_never_settles {platform : Platform} :
  (forall (w : World) (filePath : string) (st : St),
      files w filePath = Readable [] ->
      createReadStream (files w filePath) 0 8 = [OnEnd]
      /\ result (streamArchiveVersion w filePath) st = Never
      /\ events (streamArchiveVersion w filePath) st
         = trace st ++ [CreateReadStream filePath])
  /\ (forall (w : World) (state : State) (obj : Obj Plugin.t) (df : string)
             (listing : list string) (c : Archive.t),
         let folder := dataFolderOf (discoveredPath state (activeGameId state)) in
         let candidates :=
           archivesToCheckOf (archiveLoadersOf (pluginsOf obj))
                             (dataArchivesOf listing) in
         let evs := events (checkForErrors w state (Some obj)) st0 in
         In (activeGameId state) (map gameId archiveData) ->
         folder = Some df -> dirs w df = Some listing ->
         In c candidates ->
         files w (pathJoin df (Archive.name c)) = Readable [] ->
         result (checkForErrors w state (Some obj)) st0 = Never
         /\ existsb isProgress evs = true
         /\ ~ In (DismissNotification "checking-archives-all") evs)
  /\ (exists (w : World) (filePath : string),
         files w filePath = Readable []
         /\ result (streamArchiveVersion w filePath) st0 = Never).
Proof.
  split; [|split].
  - intros w filePath st Hf.
    unfold result, events; rewrite streamArchiveVersion_run, Hf.
    repeat split.
  - intros w state obj df listing c folder candidates evs Hgame Hdf Hdir Hin Hf.
    destruct (find (fun g => (gameId g =? activeGameId state)%string) archiveData)
      as [gameData|] eqn:Hfind.
    2:{ exfalso.
        apply in_map_iff in Hgame; destruct Hgame as (g & Hg & Hgin).
        apply (find_none _ _ Hfind) in Hgin.
        rewrite Hg, String.eqb_refl in Hgin; discriminate. }
    assert (Hne : candidates <> []) by (intros Hnil; rewrite Hnil in Hin; exact Hin).
    destruct (checkForErrors_checks w state obj st0 Hfind Hdf Hdir Hne)
      as (evs' & n & Hcheck & Hprog & Hrun).
    assert (Hpend : detectedVersion w df (Archive.name c) = None)
      by (unfold detectedVersion; rewrite Hf; reflexivity).
    fold candidates in Hrun.
    rewrite (@seriesVerdicts_pending _ w gameData (pluginsOf obj)
               (getSafe (persistentMods state (activeGameId state)) [])
               df candidates c Hin Hpend) in Hrun.
    subst evs; unfold result, events; rewrite Hrun; simpl.
    split; [reflexivity|]; split; [exact Hprog|].
    intros [Hd|[Hd|Hd]]; try discriminate.
    rewrite forallb_forall in Hcheck.
    apply Hcheck in Hd; discriminate.
  - exists sampleWorld, "/game/data/empty.bsa"; split; reflexivity.
Qed.

(* ===================================================================== *)
(** ** The correlator *)
(* ===================================================================== *)

Lemma fold_left_concat {A : Type} (ls : list (list A)) (acc : list A) :
  fold_left (fun prev cur => prev ++ cur) ls acc = acc ++ List.concat ls.
Proof.
  revert acc; induction ls as [|l ls IH]; intros acc; simpl.
  - rewrite app_nil_r; reflexivity.
  - rewrite IH, app_assoc; reflexivity.
Qed.

Section Correlator.

Context {platform : Platform}.

(** [reduce] with [concat] flattens the lists of the plugins in order. *)
Lemma archivesToCheckOf_flat_map (loaders : list Plugin.t)
      (archives : list string) :
  archivesToCheckOf loaders archives
  = flat_map (archivesOfPlugin archives) loaders.
Proof.
  unfold archivesToCheckOf.
  rewrite fold_left_concat, flat_map_concat_map; reflexivity.
Qed.

(** The candidates are the pairs of a loader and an archive it loads. *)
Lemma archivesToCheckOf_In (loaders : list Plugin.t) (archives : list string)
      (c : Archive.t) :
  In c (archivesToCheckOf loaders archives)
  <-> exists p, In p loaders /\ In (Archive.name c) archives
                /\ loads p (Archive.name c) = true
                /\ Archive.plugin c = Plugin.name p.
Proof.
  rewrite archivesToCheckOf_flat_map, in_flat_map; unfold archivesOfPlugin.
  split.
  - intros (p & Hp & Hc).
    apply in_map_iff in Hc; destruct Hc as (a & <- & Ha).
    apply filter_In in Ha; exists p; simpl; tauto.
  - intros (p & Hp & Ha & Hl & Hn); exists p; split; [exact Hp|].
    apply in_map_iff; exists (Archive.name c); split.
    + destruct c; simpl in *; congruence.
    + apply filter_In; tauto.
Qed.

(** The archives that survive the filter are those whose extension is one
    of the two strings of the array. *)
Lemma dataArchivesOf_In (dataFiles : list string) (f : string) :
  In f (dataArchivesOf dataFiles)
  <-> In f dataFiles /\ (Path.extname f = ".ba2" \/ Path.extname f = ".bsa").
Proof.
  unfold dataArchivesOf, isDataArchive; rewrite filter_In; unfold existsb.
  rewrite orb_false_r, orb_true_iff, !String.eqb_eq.
  intuition congruence.
Qed.

(** Among the candidates of one plugin, an archive listed once appears
    once if the plugin loads it and not at all otherwise. *)
Lemma archivesOfPlugin_named (archives : list string) (p : Plugin.t)
      (a : string) :
  NoDup archives ->
  filter (fun c => (Archive.name c =? a)%string) (archivesOfPlugin archives p)
  = if existsb (fun x => (x =? a)%string) archives && loads p a
    then [Archive.mk a (Plugin.name p)] else [].
Proof.
  unfold archivesOfPlugin.
  induction archives as [|x r IH]; intros Hnd; [reflexivity|].
  inversion Hnd as [|? ? Hx Hr]; subst.
  specialize (IH Hr); simpl.
  destruct (String.eqb_spec x a) as [->|Hxa]; simpl.
  - assert (Hex : existsb (fun x => (x =? a)%string) r = false).
    { destruct (existsb _ r) eqn:He; [|reflexivity].
      apply existsb_exists in He; destruct He as (y & Hy & Hya).
      apply String.eqb_eq in Hya; subst y; contradiction. }
    rewrite Hex in IH; simpl in IH.
    destruct (loads p a); simpl; [rewrite String.eqb_refl, IH|rewrite IH];
      reflexivity.
  - destruct (loads p x); simpl; [|exact IH].
    destruct (String.eqb_spec x a); [contradiction|exact IH].
Qed.

(** The candidates for one archive name the plugins that load it, in the
    order of the plugins: there is no deduplication across plugins. *)
Lemma candidates_per_plugin (loaders : list Plugin.t) (archives : list string)
      (a : string) :
  NoDup archives -> In a archives ->
  map Archive.plugin
      (filter (fun c => (Archive.name c =? a)%string)
              (archivesToCheckOf loaders archives))
  = map Plugin.name (filter (fun p => loads p a) loaders).
Proof.
  intros Hnd Hin.
  assert (Hex : existsb (fun x => (x =? a)%string) archives = true)
    by (apply existsb_exists; exists a; split; [exact Hin|apply String.eqb_refl]).
  rewrite archivesToCheckOf_flat_map.
  induction loaders as [|p loaders IH]; [reflexivity|].
  simpl; rewrite filter_app, map_app, IH, (archivesOfPlugin_named p a Hnd), Hex.
  simpl; destruct (loads p a); reflexivity.
Qed.

(** [find] by name succeeds on the name of a member. *)
Lemma find_by_name (plugins : list Plugin.t) (p : Plugin.t) :
  In p plugins ->
  option_map Plugin.name
             (find (fun q => (Plugin.name q =? Plugin.name p)%string) plugins)
  = Some (Plugin.name p).
Proof.
  induction plugins as [|q plugins IH]; intros Hin; [contradiction|].
  simpl; destruct (String.eqb_spec (Plugin.name q) (Plugin.name p)) as [Heq|Hne].
  - simpl; rewrite Heq; reflexivity.
  - destruct Hin as [->|Hin]; [congruence|exact (IH Hin)].
Qed.

End Correlator.

Section IssuesPerArchive.

Context {platform : Platform}.
Variables (w : World) (gameData : GameData) (plugins : list Plugin.t)
          (mods : Obj Mod.t) (dataFolder : string).

(** Of the issues of a settled series, those of one archive whose version
    differs are the issues of its candidates, one for one and in order. *)
Lemma issues_named (l : list Archive.t) (vs : list (option Issue.t))
      (a : string) (v : N) :
  Forall2 (fun c r => exists v',
               detectedVersion w dataFolder (Archive.name c) = Some v'
               /\ r = verdict gameData plugins mods c v') l vs ->
  detectedVersion w dataFolder a = Some v -> v <> version gameData ->
  filter (fun i => (Issue.name i =? a)%string) (filterDefined vs)
  = map (fun c => issueOf gameData plugins mods c v)
        (filter (fun c => (Archive.name c =? a)%string) l).
Proof.
  intros HF Hv Hne.
  induction HF as [|c r l vs (v' & Hv' & ->) HF IH]; [reflexivity|].
  simpl; unfold verdict at 1.
  destruct (String.eqb_spec (Archive.name c) a) as [Hca|Hca].
  - rewrite Hca, Hv in Hv'; injection Hv' as <-.
    apply N.eqb_neq in Hne; rewrite Hne; simpl.
    rewrite Hca, String.eqb_refl, IH; reflexivity.
  - destruct (v' =? version gameData)%N; simpl; [exact IH|].
    destruct (String.eqb_spec (Archive.name c) a); [contradiction|exact IH].
Qed.

End IssuesPerArchive.

(** X15.  An archive of the data directory that [N] of the surviving
    plugins load gives [N] candidates, one for each of these plugins in
    their order; and when every read of the batch settles (no candidate is
    a readable file of length 0) and the version of the archive is not the
    expected one, the detector yields [N] issues for it, one for each of
    these plugins, found by its name. *)
Theorem one_issue_per_matching_plugin {platform : Platform} (w : World)
        (gameData : GameData) (plugins : list Plugin.t) (mods : Obj Mod.t)
        (dataFolder : string) (dataFiles : list string) (a : string) :
  let loaders := archiveLoadersOf plugins in
  let candidates := archivesToCheckOf loaders (dataArchivesOf dataFiles) in
  let matching := filter (fun p => loads p a) loaders in
  let forArchive := filter (fun c => (Archive.name c =? a)%string) candidates in
  NoDup dataFiles -> In a (dataArchivesOf dataFiles) ->
  List.length forArchive = List.length matching
  /\ map Archive.plugin forArchive = map Plugin.name matching
  /\ forall (v : N) (st : St),
      (forall c, In c candidates ->
                 detectedVersion w dataFolder (Archive.name c) <> None) ->
      detectedVersion w dataFolder a = Some v ->
      v <> version gameData ->
      exists issues,
        result (issuesOf w gameData plugins mods (Some dataFolder) candidates) st
        = Ok issues
        /\ let reported :=
               filter (fun i => (Issue.name i =? a)%string) issues in
           List.length reported = List.length matching
           /\ map (fun i => option_map Plugin.name (Issue.plugin i)) reported
              = map (fun p => Some (Plugin.name p)) matching
           /\ Forall (fun i => Issue.version i = v
                               /\ Issue.validVersion i = version gameData)
                     reported.
Proof.
  intros loaders candidates matching forArchive Hnd Hin.
  assert (Hnames : map Archive.plugin forArchive = map Plugin.name matching).
  { apply candidates_per_plugin; [apply NoDup_filter; exact Hnd|exact Hin]. }
  assert (Hlen : List.length forArchive = List.length matching).
  { rewrite <- (length_map Archive.plugin), Hnames, length_map; reflexivity. }
  split; [exact Hlen|]; split; [exact Hnames|].
  intros v st Hall Hv Hne.
  destruct (@seriesVerdicts_settled _ w gameData plugins mods dataFolder
              candidates Hall) as (vs & Hvs & HF).
  destruct (issuesOf_run w gameData plugins mods dataFolder candidates st)
    as (evs & n & Hrun & _).
  exists (filterDefined vs); split.
  { unfold result; rewrite Hrun, Hvs; reflexivity. }
  cbv zeta.
  rewrite (@issues_named _ w gameData plugins mods dataFolder candidates vs a v
             HF Hv Hne); fold forArchive.
  split; [rewrite length_map; exact Hlen|]; split.
  - rewrite map_map; simpl.
    rewrite <- (map_map Plugin.name Some), <- Hnames, map_map.
    apply map_ext_in; intros c Hc.
    apply filter_In in Hc; destruct Hc as (Hc & _).
    apply archivesToCheckOf_In in Hc; destruct Hc as (p & Hp & _ & _ & Hpn).
    rewrite Hpn; apply find_by_name.
    apply filter_In in Hp; tauto.
  - apply Forall_forall; intros i Hi.
    apply in_map_iff in Hi; destruct Hi as (c & <- & _); split; reflexivity.
Qed.

(* ===================================================================== *)
(** ** The filter and the match key on particular names *)
(* ===================================================================== *)

(** C2, the code at the failing input.  The extension of "FOO.BSA" is
    ".BSA", which is neither of the two strings of the array: the archive
    is dropped although its extension, lower-cased, is ".bsa".  With the
    plugin "Foo.esp" enabled on Skyrim SE the run ends with nothing to
    check, and the archive of version 104 is not reported. *)
Theorem uppercase_extension_dropped :
  Path.extname "FOO.BSA" = ".BSA"
  /\ isDataArchive "FOO.BSA" = false
  /\ isDataArchiveSpec "FOO.BSA" = true
  /\ dataArchivesOf ["FOO.BSA"; "foo.bsa"] = ["foo.bsa"]
  /\ loads (loader "Foo.esp" 0 None) "FOO.BSA" = true
  /\ detectedVersion (platform := posix) upperWorld "/game/data" "FOO.BSA"
     = Some 104%N
  /\ checkForErrors (platform := posix) upperWorld (stateOf "skyrimse" [])
                    (Some [("Foo.esp", loader "Foo.esp" 0 None)]) st0
     = (Ok tt, mkSt 0 [DismissNotification "archive-errors";
                       ReadDir (Some "/game/data")]).
Proof. repeat split. Qed.

(** C3, the code at the failing input.  For the plugin "my.esp.patch.esp"
    [replace] removes the first ".esp", so the match key is "my.patch.esp"
    and not the name without its extension, "my.esp.patch".  The archive
    "my.esp.patch.bsa" starts with the latter and not with the former: no
    candidate is produced for it, and the archive of version 104 is not
    checked on Skyrim SE. *)
Theorem match_key_first_occurrence :
  let plugin := loader "my.esp.patch.esp" 0 None in
  Path.extname "my.esp.patch.esp" = ".esp"
  /\ pNameOf plugin = "my.patch.esp"
  /\ matchKeySpec plugin = "my.esp.patch"
  /\ JS.startsWith (JS.toLowerCase (Path.basename "my.esp.patch.bsa"))
                   (matchKeySpec plugin) = true
  /\ loads plugin "my.esp.patch.bsa" = false
  /\ archivesToCheckOf [plugin] (dataArchivesOf ["my.esp.patch.bsa"]) = []
  /\ checkForErrors (platform := posix) patchWorld (stateOf "skyrimse" [])
                    (Some [("my.esp.patch.esp", plugin)]) st0
     = (Ok tt, mkSt 0 [DismissNotification "archive-errors";
                       ReadDir (Some "/game/data")]).
Proof. repeat split. Qed.

(** The examples of the specification on the correlator: "Foo.esp"
    loads "foo - textures.bsa" and not "barfoo.bsa". *)
Example foo_esp_matches :
  pNameOf (loader "Foo.esp" 0 None) = "foo"
  /\ loads (loader "Foo.esp" 0 None) "foo - textures.bsa" = true
  /\ loads (loader "Foo.esp" 0 None) "barfoo.bsa" = false
  /\ archivesToCheckOf [loader "Foo.esp" 0 None]
                       (dataArchivesOf ["foo - textures.bsa"; "barfoo.bsa"])
     = [Archive.mk "foo - textures.bsa" "Foo.esp"].
Proof. repeat split. Qed.

(* ===================================================================== *)
(** ** The report grouper *)
(* ===================================================================== *)

(** The array of a key after a push, and the arrays of the other keys. *)
Lemma lookup_pushOwn_same (groups : Obj (list Issue.t)) (k : string)
      (x : Issue.t) :
  lookup (pushOwn groups k x) k
  = Some (match lookup groups k with
          | Some g => g ++ [x]
          | None => [x]
          end).
Proof.
  induction groups as [|[k' g] r IH]; simpl.
  - rewrite String.eqb_refl; reflexivity.
  - destruct (String.eqb_spec k' k) as [->|Hne]; simpl.
    + rewrite String.eqb_refl; reflexivity.
    + destruct (String.eqb_spec k' k); [contradiction|exact IH].
Qed.

Lemma lookup_pushOwn_other (groups : Obj (list Issue.t)) (k k' : string)
      (x : Issue.t) :
  k' <> k -> lookup (pushOwn groups k x) k' = lookup groups k'.
Proof.
  intros Hne; induction groups as [|[k0 g] r IH]; simpl.
  - destruct (String.eqb_spec k k'); [congruence|reflexivity].
  - destruct (String.eqb_spec k0 k) as [->|Hk0]; simpl.
    + destruct (String.eqb_spec k k'); [congruence|reflexivity].
    + rewrite IH; reflexivity.
Qed.






(** The function mapped over the issues pushes to the group of the key of
    the issue. *)
Lemma addIssue_pushTo (groups : Obj (list Issue.t)) (cur : Issue.t) :
  addIssue groups cur = pushTo groups (keyOf cur) cur.
Proof. unfold addIssue, keyOf; destruct (Issue.mod_ cur); reflexivity. Qed.

Lemma keysClean_lookup (groups : Obj (list Issue.t)) (k : string)
      (g : list Issue.t) :
  keysClean groups -> lookup groups k = Some g -> inherited k = false.
Proof.
  induction 1 as [|[k' g'] r Hk Hr IH]; simpl; [discriminate|].
  destruct (String.eqb_spec k' k) as [<-|_]; [intros _; exact Hk|exact IH].
Qed.

Lemma keysClean_pushOwn (groups : Obj (list Issue.t)) (k : string)
      (x : Issue.t) :
  keysClean groups -> inherited k = false -> keysClean (pushOwn groups k x).
Proof.
  intros Hclean Hk; induction Hclean as [|[k' g'] r Hk' Hr IH]; simpl.
  - constructor; [exact Hk|constructor].
  - destruct (String.eqb_spec k' k); constructor; auto.
Qed.

(** The push raises exactly for a key that names an inherited property. *)
Lemma pushTo_clean (groups : Obj (list Issue.t)) (k : string) (x : Issue.t) :
  keysClean groups ->
  pushTo groups k x
  = if inherited k then None else Some (pushOwn groups k x).
Proof.
  intros Hclean; unfold pushTo, getProp.
  destruct (lookup groups k) as [g|] eqn:Hg.
  - rewrite (keysClean_lookup k Hclean Hg); reflexivity.
  - destruct (inherited k); reflexivity.
Qed.

Lemma fold_addIssue_None (issues : list Issue.t) :
  fold_left (fun groups cur =>
               match groups with
               | Some g => addIssue g cur
               | None => None
               end) issues None = None.
Proof. induction issues as [|x issues IH]; [reflexivity|exact IH]. Qed.

Lemma fold_addIssue_clean (issues : list Issue.t)
      (groups : Obj (list Issue.t)) :
  keysClean groups ->
  fold_left (fun groups cur =>
               match groups with
               | Some g => addIssue g cur
               | None => None
               end) issues (Some groups)
  = if existsb (fun i => inherited (keyOf i)) issues then None
    else Some (fold_left addOwn issues groups).
Proof.
  revert groups; induction issues as [|x issues IH]; intros groups Hclean;
    [reflexivity|].
  cbn [fold_left existsb]; rewrite addIssue_pushTo, (pushTo_clean _ x Hclean).
  destruct (inherited (keyOf x)) eqn:Hk; cbn [orb].
  - apply fold_addIssue_None.
  - apply IH, keysClean_pushOwn; assumption.
Qed.

(** The grouping raises exactly when the key of some issue names an
    inherited property; otherwise every push goes to an own array. *)
Lemma groupedErrorsOf_spec (issues : list Issue.t) :
  groupedErrorsOf issues
  = if existsb (fun i => inherited (keyOf i)) issues then None
    else Some (ownGroupsOf issues).
Proof.
  apply fold_addIssue_clean; constructor; [reflexivity|constructor].
Qed.


(* ===================================================================== *)
(** ** The theorems on concrete runs *)
(* ===================================================================== *)

Lemma one_issue_per_matching_plugin_witness :
  map Archive.plugin
      (filter (fun c => (Archive.name c =? "foo - textures.bsa")%string)
              (archivesToCheckOf (archiveLoadersOf fooPlugins)
                                 (dataArchivesOf ["foo - textures.bsa"])))
  = ["Foo.esp"; "Foo - Textures.esp"]
  /\ exists issues,
      result (issuesOf (platform := posix) fooWorld skyrimse fooPlugins fooMods
                       (Some "/game/data")
                       (archivesToCheckOf (archiveLoadersOf fooPlugins)
                                          (dataArchivesOf ["foo - textures.bsa"])))
             st0 = Ok issues
      /\ List.length
           (filter (fun i => (Issue.name i =? "foo - textures.bsa")%string) issues)
         = 2.
Proof.
  assert (Hnd : NoDup ["foo - textures.bsa"])
    by (constructor; [intros []|constructor]).
  assert (Hin : In "foo - textures.bsa" (dataArchivesOf ["foo - textures.bsa"]))
    by (vm_compute; left; reflexivity).
  destruct (one_issue_per_matching_plugin (platform := posix) fooWorld skyrimse
              fooPlugins fooMods "/game/data" "foo - textures.bsa" Hnd Hin)
    as (_ & Hnames & Hissues).
  split; [exact Hnames|].
  destruct (Hissues 104%N st0) as (issues & Hres & Hlen & _).
  - vm_compute; intros c [<-|[<-|[]]]; discriminate.
  - vm_compute; reflexivity.
  - discriminate.
  - exists issues; split; [exact Hres|exact Hlen].
Defined.

Lemma checkArchive_issue_iff_mismatch_witness :
  (exists i,
      result (checkArchive (platform := posix) fooWorld skyrimse fooPlugins
                           fooMods (Some "/game/data") 1
                           (Archive.mk "foo - textures.bsa" "Foo.esp")) st0
      = Ok (Some i)
      /\ Issue.version i = 104%N /\ Issue.validVersion i = 105%N)
  /\ result (checkArchive (platform := posix) sampleWorld skyrimse fooPlugins
                          fooMods (Some "/game/data") 1
                          (Archive.mk "good.bsa" "Foo.esp")) st0
     = Ok None.
Proof.
  split.
  - destruct (proj1 (checkArchive_issue_iff_mismatch (platform := posix)
                       fooWorld skyrimse fooPlugins fooMods "/game/data")
                    1 (Archive.mk "foo - textures.bsa" "Foo.esp") 104%N st0
                    eq_refl) as (_ & Hissue).
    destruct Hissue as (i & Hres & _ & Hv & Hvalid & _); [discriminate|].
    exists i; split; [exact Hres|split; [exact Hv|exact Hvalid]].
  - exact (proj1 (proj1 (checkArchive_issue_iff_mismatch (platform := posix)
                           sampleWorld skyrimse fooPlugins fooMods "/game/data")
                        1 (Archive.mk "good.bsa" "Foo.esp") 105%N st0 eq_refl)
                 eq_refl).
Defined.

Lemma checkForErrors_unsupported_game_witness :
  events (checkForErrors (platform := posix) sampleWorld
                         (stateOf "morrowind" [])
                         (Some [("Foo.esp", loader "Foo.esp" 0 None)])) st0
  = [DismissNotification "archive-errors"].
Proof.
  refine (proj1 (proj2 (checkForErrors_unsupported_game (platform := posix)
                          sampleWorld (stateOf "morrowind" [])
                          (Some [("Foo.esp", loader "Foo.esp" 0 None)]) _))).
  vm_compute; intros [H|[H|[H|[H|[H|[H|[H|[]]]]]]]]; discriminate H.
Defined.

Lemma checkForErrors_unlistable_witness :
  result (checkForErrors (platform := posix) sampleWorld undiscovered
                         (Some [("Foo.esp", loader "Foo.esp" 0 None)])) st0
  = Ok tt
  /\ events (checkForErrors (platform := posix) sampleWorld undiscovered
                            (Some [("Foo.esp", loader "Foo.esp" 0 None)])) st0
     = [DismissNotification "archive-errors"; ReadDir None;
        Log "error" "Error checking for BSA errors"].
Proof.
  destruct (checkForErrors_unlistable (platform := posix) sampleWorld
              undiscovered [("Foo.esp", loader "Foo.esp" 0 None)])
    as (Hres & Hevs & _).
  - vm_compute; right; left; reflexivity.
  - left; reflexivity.
  - split; [exact Hres|exact Hevs].
Defined.

(** C7, the claim as written fails.  With the data folder undefined on a
    supported game the run dismisses the 'archive-errors' notification
    before it logs: the log entry is not its only effect.  On a game outside
    the table, the data folder undefined as well, there is no log entry. *)
Lemma log_entry_not_only_effect :
  let run := checkForErrors (platform := posix) sampleWorld undiscovered
                            (Some [("Foo.esp", loader "Foo.esp" 0 None)]) in
  let other := checkForErrors (platform := posix) sampleWorld undiscoveredOther
                              (Some [("Foo.esp", loader "Foo.esp" 0 None)]) in
  dataFolderOf (platform := posix)
               (discoveredPath undiscovered (activeGameId undiscovered)) = None
  /\ In (DismissNotification "archive-errors") (events run st0)
  /\ ~ (forall e, In e (events run st0) -> isLog e = true)
  /\ dataFolderOf (platform := posix)
                  (discoveredPath undiscoveredOther
                                  (activeGameId undiscoveredOther)) = None
  /\ filter isLog (events other st0) = [].
Proof.
  cbv zeta.
  assert (Hin : In (DismissNotification "archive-errors")
                   (events (checkForErrors (platform := posix) sampleWorld
                              undiscovered
                              (Some [("Foo.esp", loader "Foo.esp" 0 None)])) st0))
    by (vm_compute; left; reflexivity).
  split; [reflexivity|]; split; [exact Hin|]; split; [|split; reflexivity].
  intros Hall; specialize (Hall _ Hin); discriminate Hall.
Qed.

Lemma empty_archive_never_settles_witness :
  result (streamArchiveVersion sampleWorld "/game/data/empty.bsa") st0 = Never
  /\ result (checkForErrors (platform := posix) sampleWorld
                            (stateOf "skyrimse" []) (Some emptyPlugins)) st0
     = Never
  /\ ~ In (DismissNotification "checking-archives-all")
          (events (checkForErrors (platform := posix) sampleWorld
                                  (stateOf "skyrimse" []) (Some emptyPlugins))
                  st0).
Proof.
  destruct (empty_archive_never_settles (platform := posix))
    as (Hread & Hrun & _).
  split.
  - exact (proj1 (proj2 (Hread sampleWorld "/game/data/empty.bsa" st0 eq_refl))).
  - destruct (Hrun sampleWorld (stateOf "skyrimse" []) emptyPlugins "/game/data"
                   ["good.bsa"; "short.bsa"; "empty.bsa"; "gone.bsa"]
                   (Archive.mk "empty.bsa" "empty.esp"))
      as (Hres & _ & Hnot).
    + vm_compute; right; left; reflexivity.
    + reflexivity.
    + reflexivity.
    + vm_compute; left; reflexivity.
    + reflexivity.
    + split; [exact Hres|exact Hnot].
Defined.


(** C4.  The claim fails on a batch with an empty archive.  The data
    directory holds "fo.bsa", a readable file of length 0, and "foo.bsa",
    whose version 104 is not the 105 of Skyrim SE; the plugins "Fo.esp" and
    "Foo.esp" both match "foo.bsa", so there are two candidates for it,
    one per plugin.  The read of "fo.bsa", the first candidate, never
    settles: the detector yields no issue at all, the run never completes
    and sends no result notification, where the claim has two issues for
    "foo.bsa". *)
Theorem matched_twice_never_reported :
  let candidates :=
    archivesToCheckOf (archiveLoadersOf stuckPlugins)
                      (dataArchivesOf ["fo.bsa"; "foo.bsa"]) in
  let run := checkForErrors (platform := posix) stuckWorld
                            (stateOf "skyrimse" []) (Some stuckObj) in
  candidates = [Archive.mk "fo.bsa" "Fo.esp"; Archive.mk "foo.bsa" "Fo.esp";
                Archive.mk "foo.bsa" "Foo.esp"]
  /\ detectedVersion (platform := posix) stuckWorld "/game/data" "foo.bsa"
     = Some 104%N
  /\ version skyrimse = 105%N
  /\ result (issuesOf (platform := posix) stuckWorld skyrimse stuckPlugins []
                      (Some "/game/data") candidates) st0
     = Never
  /\ result run st0 = Never
  /\ filter isResultNotification (events run st0) = []
  /\ events run st0
     = [DismissNotification "archive-errors"; ReadDir (Some "/game/data");
        AddNotification "checking-archives-all" 0 3 "fo.bsa";
        CreateReadStream "/game/data/fo.bsa"].
Proof. vm_compute; repeat split. Qed.

(** C5.  The claim fails for a plugin whose mod name is the name of a
    property every plain object inherits.  The plugin "Foo.esp" has the
    mod name "constructor" and the registry of mods has no entry of that
    name, so the plugin is not in the registry; its archive "foo.bsa" has
    the version 104 on Skyrim SE.  The issue of the archive does not carry
    an absent mod: [mods['constructor']] is the function every object
    inherits.  The dialog takes it for a mod, and building its sections
    raises on the attributes of that value. *)
Theorem unregistered_plugin_mod_not_absent :
  let issue := ctorIssue "foo.bsa" (Inherited "constructor") in
  lookup fooMods "constructor" = None
  /\ result (checkArchive (platform := posix) ctorWorld skyrimse [ctorPlugin]
                          fooMods (Some "/game/data") 2
                          (Archive.mk "foo.bsa" "Foo.esp")) st0
     = Ok (Some issue)
  /\ Issue.mod_ issue <> Undefined
  /\ In (SendNotification "archive-errors" skyrimse
                          [issue;
                           ctorIssue "foo - textures.bsa"
                                     (Inherited "constructor")])
        (events (checkForErrors (platform := posix) ctorWorld
                                (stateOf "skyrimse" fooMods) (Some ctorObj))
                st0)
  /\ errorsByModOf (fun s => s) [issue] = None.
Proof.
  cbv zeta; split; [reflexivity|]; split; [vm_compute; reflexivity|].
  split; [discriminate|]; split; [|vm_compute; reflexivity].
  vm_compute; do 9 right; left; reflexivity.
Qed.

(** C9.  The claim fails for a mod whose identifier is the name of a
    property every plain object inherits.  The registry has a mod with the
    identifier "constructor", which owns the plugin "Foo.esp"; the two
    archives of the plugin have the version 104 on Skyrim SE, so the run
    reports two issues of that mod.  In the dialog
    [groupedErrors['constructor']] is the inherited function, which is
    truthy: no array is created and the call of [push] raises.  The two
    issues are put in no group and no label is derived. *)
Theorem inherited_mod_id_not_grouped :
  let issues := [ctorIssue "foo.bsa" (Own ctorMod);
                 ctorIssue "foo - textures.bsa" (Own ctorMod)] in
  In (SendNotification "archive-errors" skyrimse issues)
     (events (checkForErrors (platform := posix) ctorWorld
                             (stateOf "skyrimse" ctorMods) (Some ctorObj))
             st0)
  /\ (forall i, In i issues -> Issue.mod_ i = Own ctorMod)
  /\ getProp [("noMod", @nil Issue.t)] (Mod.id ctorMod)
     = Inherited "constructor"
  /\ groupedErrorsOf issues = None
  /\ errorsByModOf (fun s => s) issues = None.
Proof.
  cbv zeta; split; [vm_compute; do 9 right; left; reflexivity|].
  split; [intros i [<-|[<-|[]]]; reflexivity|].
  split; [reflexivity|]; split; vm_compute; reflexivity.
Qed.

(* ===================================================================== *)
(** ** More on the header version reader *)
(* ===================================================================== *)

(** The promise stays pending for the empty readable file and for no
    other file. *)
Lemma versionPromise_pending_iff (f : FileState) :
  versionPromise f = Pending <-> f = Readable [].
Proof.
  split; [|intros ->; reflexivity].
  destruct f as [|[|b content]]; [discriminate|reflexivity|discriminate].
Qed.

Lemma at_bounded (buf : list byte) (i : nat) : (Buf.at_ buf i <= 255)%N.
Proof. apply Byte.to_N_bounded. Qed.

(** The version of a chunk is a sum of four bytes. *)
Lemma versionOfChunk_bounded (chunk : list byte) :
  (versionOfChunk chunk <= 1020)%N.
Proof.
  unfold versionOfChunk.
  assert (Hlen : List.length (Buf.slice (Buf.fill (Buf.alloc 9) chunk) 4 8) <= 4).
  { unfold Buf.slice; rewrite length_firstn; apply Nat.le_min_l. }
  revert Hlen; generalize (Buf.slice (Buf.fill (Buf.alloc 9) chunk) 4 8).
  intros l Hlen; unfold Buf.sum.
  assert (Hgen : forall (l : list byte) (acc : N),
             (fold_left (fun accum entry => accum + Byte.to_N entry) l acc
              <= acc + 255 * N.of_nat (List.length l))%N).
  { clear; induction l as [|b l IH]; intros acc.
    - simpl; lia.
    - change (fold_left (fun accum entry => accum + Byte.to_N entry) (b :: l) acc)%N
        with (fold_left (fun accum entry => accum + Byte.to_N entry) l
                        (acc + Byte.to_N b))%N.
      specialize (IH (acc + Byte.to_N b)%N).
      pose proof (Byte.to_N_bounded b).
      change (List.length (b :: l)) with (S (List.length l)).
      lia. }
  specialize (Hgen l 0%N); lia.
Qed.

Lemma versionPromise_bounded (f : FileState) (v : N) :
  versionPromise f = Fulfilled v -> (v <= 1020)%N.
Proof.
  destruct f as [|content]; [intros [= <-]; lia|].
  unfold versionPromise, createReadStream.
  destruct (firstn (8 - 0 + 1) (skipn 0 content)) as [|b chunk];
    [discriminate|].
  cbn [fold_left onEvent resolve]; intros [= <-].
  apply versionOfChunk_bounded.
Qed.

(** X1.  [streamArchiveVersion] settles for every file but the readable
    file of length 0, and never with an exception.  When it settles it has
    created one stream and destroyed it, in this order and nothing else,
    the counter is untouched, and the version is at most 1020 (four
    bytes). *)
Theorem streamArchiveVersion_settles (w : World) (filePath : string) (st : St) :
  files w filePath <> Readable [] ->
  exists v,
    streamArchiveVersion w filePath st
    = (Ok v, mkSt (pos st)
                  (trace st ++ [CreateReadStream filePath;
                                StreamDestroy filePath]))
    /\ (v <= 1020)%N.
Proof.
  intros Hne; rewrite streamArchiveVersion_run.
  pose proof (versionPromise_not_rejected (files w filePath)) as Hnr.
  pose proof (versionPromise_pending_iff (files w filePath)) as Hp.
  pose proof (@versionPromise_bounded (files w filePath)) as Hb.
  destruct (versionPromise (files w filePath)) as [|v|e].
  - exfalso; apply Hne, Hp; reflexivity.
  - exists v; split; [reflexivity|apply Hb; reflexivity].
  - exfalso; apply (Hnr e); reflexivity.
Qed.

Lemma streamArchiveVersion_settles_witness :
  exists v,
    streamArchiveVersion sampleWorld "/game/data/good.bsa" st0
    = (Ok v, mkSt 0 [CreateReadStream "/game/data/good.bsa";
                     StreamDestroy "/game/data/good.bsa"])
    /\ (v <= 1020)%N.
Proof.
  apply (streamArchiveVersion_settles sampleWorld "/game/data/good.bsa" st0).
  vm_compute; discriminate.
Defined.

(** X2.  For a file of nine bytes or more the version read is the sum of
    the four bytes of the version field, not the little-endian number they
    encode: it never exceeds that number and equals it exactly when the
    bytes 5, 6 and 7 are zero, that is when the number is below 256. *)
Theorem version_sum_vs_little_endian (w : World) (filePath : string)
        (content : list byte) (st : St) :
  files w filePath = Readable content ->
  9 <= List.length content ->
  exists v,
    result (streamArchiveVersion w filePath) st = Ok v
    /\ (v <= littleEndian32 content)%N
    /\ (v = littleEndian32 content <-> (littleEndian32 content < 256)%N).
Proof.
  intros Hf Hlen.
  unfold result; rewrite streamArchiveVersion_run, Hf.
  rewrite (versionPromise_long content Hlen).
  eexists; split; [reflexivity|].
  unfold littleEndian32.
  pose proof (at_bounded content 4); pose proof (at_bounded content 5).
  pose proof (at_bounded content 6); pose proof (at_bounded content 7).
  split; [lia|split; lia].
Qed.

Lemma version_sum_vs_little_endian_witness :
  exists v,
    result (streamArchiveVersion sampleWorld "/game/data/good.bsa") st0 = Ok v
    /\ (v <= littleEndian32 (bsaHeader 105))%N
    /\ (v = littleEndian32 (bsaHeader 105)
        <-> (littleEndian32 (bsaHeader 105) < 256)%N).
Proof.
  apply (@version_sum_vs_little_endian sampleWorld "/game/data/good.bsa"
                                       (bsaHeader 105) st0).
  - reflexivity.
  - vm_compute; apply le_n.
Defined.

(* ===================================================================== *)
(** ** More on the pipeline *)
(* ===================================================================== *)

Section SeriesRuns.

Context {platform : Platform}.
Variables (w : World) (gameData : GameData) (plugins : list Plugin.t)
          (mods : Obj Mod.t) (dataFolder : string).

Lemma detectedVersion_None_iff (name : string) :
  detectedVersion w dataFolder name = None
  <-> files w (pathJoin dataFolder name) = Readable [].
Proof.
  unfold detectedVersion.
  pose proof (versionPromise_pending_iff (files w (pathJoin dataFolder name))) as Hp.
  pose proof (versionPromise_not_rejected (files w (pathJoin dataFolder name))) as Hr.
  destruct (versionPromise (files w (pathJoin dataFolder name))) as [|v|e].
  - split; intros _; [apply Hp|]; reflexivity.
  - split; [discriminate|intros H; apply Hp in H; discriminate].
  - exfalso; apply (Hr e); reflexivity.
Qed.

(** The series stays pending exactly when one of its reads does. *)
Lemma seriesVerdicts_None_iff (l : list Archive.t) :
  seriesVerdicts w gameData plugins mods dataFolder l = None
  <-> exists c, In c l /\ detectedVersion w dataFolder (Archive.name c) = None.
Proof.
  split.
  - induction l as [|a l IH]; [discriminate|]; simpl.
    destruct (detectedVersion w dataFolder (Archive.name a)) eqn:Ha.
    + destruct (seriesVerdicts w gameData plugins mods dataFolder l);
        [discriminate|].
      intros _; destruct (IH eq_refl) as (c & Hc & Hn).
      exists c; split; [right; exact Hc|exact Hn].
    + intros _; exists a; split; [left; reflexivity|exact Ha].
  - intros (c & Hc & Hn); eapply seriesVerdicts_pending; eassumption.
Qed.

(** The run of the series with its events. *)
Lemma mapSeries_events (total : nat) (l : list Archive.t) (st : St) :
  exists n,
    mapSeries (checkArchive w gameData plugins mods (Some dataFolder) total) l st
    = (match seriesVerdicts w gameData plugins mods dataFolder l with
       | Some ys => Ok ys
       | None => Never
       end,
       mkSt n (trace st ++ seriesEvents w dataFolder total (pos st) l)).
Proof.
  revert st; induction l as [|a l IH]; intros st.
  - exists (pos st); simpl; rewrite app_nil_r; destruct st; reflexivity.
  - simpl; unfold bind at 1; rewrite checkArchive_run.
    destruct (detectedVersion w dataFolder (Archive.name a)) as [v|].
    + unfold bind at 1.
      match goal with |- context [mapSeries _ l ?s] =>
        destruct (IH s) as (n & Hrun); rewrite Hrun end.
      exists n; simpl.
      destruct (seriesVerdicts w gameData plugins mods dataFolder l);
        unfold ret; rewrite <- app_assoc; reflexivity.
    + eexists; reflexivity.
Qed.

End SeriesRuns.

Section PipelineRuns.

Context {platform : Platform}.
Variables (w : World) (state : State).

Local Abbreviation game := (activeGameId state).
Local Abbreviation folder := (dataFolderOf (discoveredPath state game)).
Local Abbreviation modsOf := (getSafe (persistentMods state game) []).
Local Abbreviation candidatesOf obj listing :=
  (archivesToCheckOf (archiveLoadersOf (pluginsOf obj)) (dataArchivesOf listing)).

(** The listing succeeds and no plugin loads any of the archives. *)
Lemma checkForErrors_nothing (gameData : GameData) (obj : Obj Plugin.t)
      (df : string) (listing : list string) (st : St) :
  find (fun g => (gameId g =? game)%string) archiveData = Some gameData ->
  folder = Some df -> dirs w df = Some listing ->
  candidatesOf obj listing = [] ->
  checkForErrors w state (Some obj) st
  = (Ok tt,
     mkSt (pos st)
          (trace st ++ [DismissNotification "archive-errors"; ReadDir (Some df)])).
Proof.
  intros Hfind Hdf Hdir Hnil.
  unfold checkForErrors, bind at 1, emit at 1; cbv beta iota zeta.
  rewrite Hfind, Hdf.
  unfold tryCatch, readdirAsync, bind at 1, bind at 1, emit at 1; simpl.
  rewrite Hdir; unfold ret at 1.
  rewrite Hnil; unfold ret; simpl; rewrite <- app_assoc; reflexivity.
Qed.

(** The listing succeeds and there are archives to check: the run with all
    its events. *)
Lemma checkForErrors_batch (gameData : GameData) (obj : Obj Plugin.t)
      (df : string) (listing : list string) (st : St) :
  let candidates := candidatesOf obj listing in
  let verdicts :=
    seriesVerdicts w gameData (pluginsOf obj) modsOf df candidates in
  find (fun g => (gameId g =? game)%string) archiveData = Some gameData ->
  folder = Some df -> dirs w df = Some listing -> candidates <> [] ->
  exists n,
    checkForErrors w state (Some obj) st
    = (match verdicts with Some _ => Ok tt | None => Never end,
       mkSt n (trace st
               ++ [DismissNotification "archive-errors"; ReadDir (Some df)]
               ++ seriesEvents w df (List.length candidates) 0 candidates
               ++ match verdicts with
                  | Some vs => [DismissNotification "checking-archives-all";
                                reportOf gameData (filterDefined vs)]
                  | None => []
                  end)).
Proof.
  intros candidates verdicts Hfind Hdf Hdir Hne.
  destruct (mapSeries_events w gameData (pluginsOf obj) modsOf df
              (List.length candidates) candidates
              (mkSt 0 ((trace st ++ [DismissNotification "archive-errors"])
                         ++ [ReadDir (Some df)])))
    as (n & Hrun).
  fold verdicts in Hrun; simpl pos in Hrun; simpl trace in Hrun.
  unfold checkForErrors, bind at 1, emit at 1; cbv beta iota zeta.
  rewrite Hfind, Hdf.
  unfold tryCatch, readdirAsync, bind at 1, bind at 1, emit at 1; simpl.
  rewrite Hdir; unfold ret at 1.
  fold candidates.
  destruct candidates as [|c cs] eqn:Hc; [congruence|].
  unfold bind at 1, setPos; simpl pos; simpl trace.
  unfold issuesOf, bind at 1, bind at 1; rewrite Hrun.
  destruct verdicts as [vs|].
  - exists n; unfold ret at 1, bind, emit, reportOf; simpl.
    destruct (filterDefined vs); simpl; rewrite <- !app_assoc; reflexivity.
  - exists n; simpl; rewrite app_nil_r, <- !app_assoc; reflexivity.
Qed.

(** The four ways a run goes. *)
Lemma checkForErrors_cases (pluginsObj : option (Obj Plugin.t)) (st : St) :
  (checkForErrors w state pluginsObj st
   = (Ok tt, mkSt (pos st) (trace st ++ [DismissNotification "archive-errors"]))
   /\ (~ In game (map gameId archiveData) \/ pluginsObj = None))
  \/ (exists gameData obj,
         find (fun g => (gameId g =? game)%string) archiveData = Some gameData
         /\ pluginsObj = Some obj
         /\ ((folder = None \/ exists df, folder = Some df /\ dirs w df = None)
             /\ checkForErrors w state pluginsObj st
                = (Ok tt,
                   mkSt (pos st)
                        (trace st ++ [DismissNotification "archive-errors";
                                      ReadDir folder;
                                      Log "error" "Error checking for BSA errors"]))
             \/ exists df listing,
                 folder = Some df /\ dirs w df = Some listing
                 /\ (candidatesOf obj listing = []
                     /\ checkForErrors w state pluginsObj st
                        = (Ok tt,
                           mkSt (pos st)
                                (trace st ++ [DismissNotification "archive-errors";
                                              ReadDir (Some df)]))
                     \/ candidatesOf obj listing <> []
                        /\ exists n,
                            checkForErrors w state pluginsObj st
                            = (match seriesVerdicts w gameData (pluginsOf obj)
                                       modsOf df (candidatesOf obj listing) with
                               | Some _ => Ok tt
                               | None => Never
                               end,
                               mkSt n
                                 (trace st
                                  ++ [DismissNotification "archive-errors";
                                      ReadDir (Some df)]
                                  ++ seriesEvents w df
                                       (List.length (candidatesOf obj listing)) 0
                                       (candidatesOf obj listing)
                                  ++ match seriesVerdicts w gameData (pluginsOf obj)
                                             modsOf df (candidatesOf obj listing) with
                                     | Some vs =>
                                       [DismissNotification "checking-archives-all";
                                        reportOf gameData (filterDefined vs)]
                                     | None => []
                                     end))))).
Proof.
  destruct (find (fun g => (gameId g =? game)%string) archiveData)
    as [gameData|] eqn:Hfind.
  2:{ left; split; [apply checkForErrors_unsupported; exact Hfind|].
      left; intros Hin.
      apply in_map_iff in Hin; destruct Hin as (g & Hg & Hin).
      apply (find_none _ _ Hfind) in Hin.
      rewrite Hg, String.eqb_refl in Hin; discriminate. }
  destruct pluginsObj as [obj|].
  2:{ left; split; [apply checkForErrors_no_plugins|right; reflexivity]. }
  right; exists gameData, obj; split; [reflexivity|]; split; [reflexivity|].
  destruct folder as [df|] eqn:Hdf.
  2:{ left; split; [left; reflexivity|].
      rewrite <- Hdf; apply (checkForErrors_listing_fails w state obj st Hfind).
      left; exact Hdf. }
  destruct (dirs w df) as [listing|] eqn:Hdir.
  2:{ left; split; [right; exists df; split; [reflexivity|exact Hdir]|].
      rewrite <- Hdf; apply (checkForErrors_listing_fails w state obj st Hfind).
      right; exists df; split; assumption. }
  right; exists df, listing; split; [reflexivity|]; split; [exact Hdir|].
  destruct (candidatesOf obj listing) as [|c cs] eqn:Hc.
  - left; split; [reflexivity|].
    apply (checkForErrors_nothing obj st Hfind Hdf Hdir Hc).
  - right; split; [discriminate|].
    rewrite <- Hc.
    apply (checkForErrors_batch obj st Hfind Hdf Hdir).
    rewrite Hc; discriminate.
Qed.

End PipelineRuns.

Section StreamDiscipline.

Context {platform : Platform}.
Variables (w : World) (gameData : GameData) (plugins : list Plugin.t)
          (mods : Obj Mod.t) (dataFolder : string) (total : nat).

(** A settled series has destroyed every stream it created. *)
Lemma destroyPending_series_settled (l : list Archive.t) (k : nat)
      (tail : list Event) :
  seriesVerdicts w gameData plugins mods dataFolder l <> None ->
  destroyPending None (seriesEvents w dataFolder total k l ++ tail)
  = destroyPending None tail.
Proof.
  revert k; induction l as [|a l IH]; intros k Hs; [reflexivity|].
  simpl in *.
  destruct (detectedVersion w dataFolder (Archive.name a)); [|congruence].
  simpl; rewrite String.eqb_refl; apply IH.
  destruct (seriesVerdicts w gameData plugins mods dataFolder l); congruence.
Qed.

(** A pending series ends with the stream of the pending read created
    and not destroyed. *)
Lemma destroyPending_series_pending (l : list Archive.t) (k : nat) :
  seriesVerdicts w gameData plugins mods dataFolder l = None ->
  exists c,
    In c l
    /\ detectedVersion w dataFolder (Archive.name c) = None
    /\ destroyPending None (seriesEvents w dataFolder total k l)
       = Some (Some (pathJoin dataFolder (Archive.name c))).
Proof.
  revert k; induction l as [|a l IH]; intros k Hs; [discriminate|].
  simpl in *.
  destruct (detectedVersion w dataFolder (Archive.name a)) eqn:Ha.
  - simpl; rewrite String.eqb_refl.
    destruct (IH (S k)) as (c & Hc & Hn & Hopen).
    + destruct (seriesVerdicts w gameData plugins mods dataFolder l);
        [discriminate|reflexivity].
    + exists c; split; [right; exact Hc|split; assumption].
  - exists a; split; [left; reflexivity|split; [exact Ha|reflexivity]].
Qed.

(** When every read settles the events of the series are three for each
    archive, the counter going up by one from archive to archive. *)
Lemma seriesEvents_settled (l : list Archive.t) (k : nat) :
  (forall c, In c l -> detectedVersion w dataFolder (Archive.name c) <> None) ->
  seriesEvents w dataFolder total k l
  = flat_map (fun kc =>
                [AddNotification "checking-archives-all" (fst kc * 100) total
                                 (Archive.name (snd kc));
                 CreateReadStream (pathJoin dataFolder (Archive.name (snd kc)));
                 StreamDestroy (pathJoin dataFolder (Archive.name (snd kc)))])
             (combine (seq k (List.length l)) l).
Proof.
  revert k; induction l as [|a l IH]; intros k Hall; [reflexivity|].
  simpl.
  destruct (detectedVersion w dataFolder (Archive.name a)) eqn:Ha.
  - rewrite IH; [reflexivity|intros c Hc; apply Hall; right; exact Hc].
  - exfalso; apply (Hall a); [left; reflexivity|exact Ha].
Qed.

End StreamDiscipline.

Section PipelineFacts.

Context {platform : Platform}.
Variables (w : World) (state : State).

Local Abbreviation game := (activeGameId state).
Local Abbreviation folder := (dataFolderOf (discoveredPath state game)).
Local Abbreviation modsOf := (getSafe (persistentMods state game) []).
Local Abbreviation candidatesOf obj listing :=
  (archivesToCheckOf (archiveLoadersOf (pluginsOf obj)) (dataArchivesOf listing)).

Lemma find_game_In (gameData : GameData) :
  find (fun g => (gameId g =? game)%string) archiveData = Some gameData ->
  In game (map gameId archiveData).
Proof.
  intros Hfind; apply find_some in Hfind; destruct Hfind as (Hin & Heq).
  apply String.eqb_eq in Heq; rewrite <- Heq; apply in_map; exact Hin.
Qed.

(** X3.  Every run starts by dismissing the 'archive-errors' notification
    and never ends with an exception: it completes, or it never completes;
    and it never completes exactly when the game is supported, the plugin
    object is there, the data folder can be listed and one of the archives
    to check is a readable file of length 0. *)
Theorem checkForErrors_completes_unless_empty_archive
        (pluginsObj : option (Obj Plugin.t)) (st : St) :
  (exists rest,
      events (checkForErrors w state pluginsObj) st
      = trace st ++ DismissNotification "archive-errors" :: rest)
  /\ (result (checkForErrors w state pluginsObj) st = Ok tt
      \/ result (checkForErrors w state pluginsObj) st = Never)
  /\ (result (checkForErrors w state pluginsObj) st = Never
      <-> exists obj df listing c,
          pluginsObj = Some obj
          /\ In game (map gameId archiveData)
          /\ folder = Some df
          /\ dirs w df = Some listing
          /\ In c (candidatesOf obj listing)
          /\ files w (pathJoin df (Archive.name c)) = Readable []).
Proof.
  unfold result, events.
  destruct (checkForErrors_cases w state pluginsObj st)
    as [(Hrun & Hwhy)
       |(gameData & obj & Hfind & -> &
         [(Hfail & Hrun)
         |(df & listing & Hdf & Hdir &
           [(Hnil & Hrun)|(Hne & n & Hrun)])])];
    rewrite Hrun; simpl.
  - split; [eexists; reflexivity|]; split; [left; reflexivity|].
    split; [discriminate|].
    intros (obj & df & listing & c & -> & Hin & _).
    destruct Hwhy as [Hno|Hno]; [contradiction|discriminate].
  - split; [eexists; reflexivity|]; split; [left; reflexivity|].
    split; [discriminate|].
    intros (obj' & df & listing & c & _ & _ & Hdf & Hdir & _).
    destruct Hfail as [Hnone|(df' & Hdf' & Hdir')]; [congruence|].
    rewrite Hdf in Hdf'; injection Hdf' as <-; congruence.
  - split; [eexists; reflexivity|]; split; [left; reflexivity|].
    split; [discriminate|].
    intros (obj' & df' & listing' & c & [= <-] & _ & Hdf' & Hdir' & Hc & _).
    rewrite Hdf in Hdf'; injection Hdf' as <-.
    rewrite Hdir in Hdir'; injection Hdir' as <-.
    rewrite Hnil in Hc; destruct Hc.
  - split; [eexists; reflexivity|].
    destruct (seriesVerdicts w gameData (pluginsOf obj) modsOf df
                             (candidatesOf obj listing)) as [vs|] eqn:Hs; simpl.
    + split; [left; reflexivity|]; split; [discriminate|].
      intros (obj' & df' & listing' & c & [= <-] & _ & Hdf' & Hdir' & Hc & Hf).
      rewrite Hdf in Hdf'; injection Hdf' as <-.
      rewrite Hdir in Hdir'; injection Hdir' as <-.
      apply detectedVersion_None_iff in Hf.
      erewrite seriesVerdicts_pending in Hs by eassumption; discriminate.
    + split; [right; reflexivity|]; split; [|reflexivity].
      intros _.
      apply seriesVerdicts_None_iff in Hs; destruct Hs as (c & Hc & Hn).
      apply detectedVersion_None_iff in Hn.
      exists obj, df, listing, c; repeat split; auto.
      exact (find_game_In Hfind).
Qed.

(** X4.  The read streams of a run, completed or not: the module creates
    a stream only once it has called [destroy] on the stream it created
    before, and calls [destroy] only on the stream it created last, so that
    it reads one archive at a time; a run that completes has called
    [destroy] on every stream it created. *)
Theorem checkForErrors_one_stream_at_a_time
        (pluginsObj : option (Obj Plugin.t)) :
  exists pending,
    destroyPending None (events (checkForErrors w state pluginsObj) st0)
    = Some pending
    /\ (result (checkForErrors w state pluginsObj) st0 = Ok tt
        -> pending = None).
Proof.
  unfold result, events.
  destruct (checkForErrors_cases w state pluginsObj st0)
    as [(Hrun & _)
       |(gameData & obj & Hfind & -> &
         [(_ & Hrun)
         |(df & listing & Hdf & Hdir &
           [(_ & Hrun)|(_ & n & Hrun)])])];
    rewrite Hrun; simpl;
    try (exists None; split; reflexivity).
  destruct (seriesVerdicts w gameData (pluginsOf obj) modsOf df
                           (candidatesOf obj listing)) as [vs|] eqn:Hs; simpl.
  - rewrite destroyPending_series_settled with (gameData := gameData)
      (plugins := pluginsOf obj) (mods := modsOf) by congruence.
    exists None; split; [destruct (filterDefined vs); reflexivity|].
    reflexivity.
  - rewrite app_nil_r.
    destruct (@destroyPending_series_pending _ w gameData (pluginsOf obj) modsOf df
                (List.length (candidatesOf obj listing))
                (candidatesOf obj listing) 0 Hs) as (c & _ & _ & Hopen).
    rewrite Hopen; eexists; split; [reflexivity|discriminate].
Qed.

End PipelineFacts.

Section BatchFacts.

Context {platform : Platform}.
Variables (w : World) (state : State).

Local Abbreviation game := (activeGameId state).
Local Abbreviation folder := (dataFolderOf (discoveredPath state game)).
Local Abbreviation modsOf := (getSafe (persistentMods state game) []).
Local Abbreviation candidatesOf obj listing :=
  (archivesToCheckOf (archiveLoadersOf (pluginsOf obj)) (dataArchivesOf listing)).

(** The events of the series are progress notifications and stream
    events. *)
Lemma seriesEvents_check (df : string) (total k : nat) (l : list Archive.t) :
  forallb isCheckEvent (seriesEvents w df total k l) = true.
Proof.
  revert k; induction l as [|a l IH]; intros k; [reflexivity|].
  simpl; destruct (detectedVersion w df (Archive.name a)); simpl; auto.
Qed.

(** Where the issues of a settled series come from. *)
Lemma filterDefined_verdicts (gameData : GameData) (plugins : list Plugin.t)
      (mods : Obj Mod.t) (df : string) (l : list Archive.t)
      (vs : list (option Issue.t)) (i : Issue.t) :
  seriesVerdicts w gameData plugins mods df l = Some vs ->
  In i (filterDefined vs) ->
  exists c v,
    In c l
    /\ detectedVersion w df (Archive.name c) = Some v
    /\ v <> version gameData
    /\ i = issueOf gameData plugins mods c v.
Proof.
  revert vs; induction l as [|a l IH]; intros vs Hs Hin.
  - injection Hs as <-; destruct Hin.
  - simpl in Hs.
    destruct (detectedVersion w df (Archive.name a)) as [v|] eqn:Ha;
      [|discriminate].
    destruct (seriesVerdicts w gameData plugins mods df l) as [ys|];
      [|discriminate].
    injection Hs as <-.
    assert (Hrest : In i (filterDefined ys) ->
                    exists c v0, In c (a :: l)
                      /\ detectedVersion w df (Archive.name c) = Some v0
                      /\ v0 <> version gameData
                      /\ i = issueOf gameData plugins mods c v0).
    { intros H; destruct (IH ys eq_refl H) as (c & v0 & Hc & Hrest).
      exists c, v0; split; [right; exact Hc|exact Hrest]. }
    unfold verdict in Hin.
    destruct (v =? version gameData)%N eqn:Hcmp; simpl in Hin.
    + apply Hrest; exact Hin.
    + destruct Hin as [<-|Hin]; [|apply Hrest; exact Hin].
      exists a, v; split; [left; reflexivity|].
      split; [exact Ha|]; split; [apply N.eqb_neq; exact Hcmp|reflexivity].
Qed.

(** X5.  A batch that completes, step by step: after the dismissal of the
    former result and the listing of the folder, each candidate in order
    gets a progress notification whose progress is its index times 100 over
    the number of candidates and whose message is the archive name, then its
    stream is created and destroyed; at the end the progress notification is
    dismissed and either one result notification carries all the issues or,
    without issues, a debug entry is logged. *)
Theorem completed_batch_events (gameData : GameData) (obj : Obj Plugin.t)
        (df : string) (listing : list string) :
  let candidates := candidatesOf obj listing in
  let n := List.length candidates in
  find (fun g => (gameId g =? game)%string) archiveData = Some gameData ->
  folder = Some df -> dirs w df = Some listing -> candidates <> [] ->
  (forall c, In c candidates ->
             files w (pathJoin df (Archive.name c)) <> Readable []) ->
  exists issues,
    result (issuesOf w gameData (pluginsOf obj) modsOf (Some df) candidates) st0
    = Ok issues
    /\ result (checkForErrors w state (Some obj)) st0 = Ok tt
    /\ events (checkForErrors w state (Some obj)) st0
       = [DismissNotification "archive-errors"; ReadDir (Some df)]
         ++ flat_map
              (fun kc =>
                 [AddNotification "checking-archives-all" (fst kc * 100) n
                                  (Archive.name (snd kc));
                  CreateReadStream (pathJoin df (Archive.name (snd kc)));
                  StreamDestroy (pathJoin df (Archive.name (snd kc)))])
              (combine (seq 0 n) candidates)
         ++ [DismissNotification "checking-archives-all";
             reportOf gameData issues].
Proof.
  intros candidates n Hfind Hdf Hdir Hne Hfiles.
  assert (Hall : forall c, In c candidates ->
                           detectedVersion w df (Archive.name c) <> None).
  { intros c Hc Hn; apply detectedVersion_None_iff in Hn.
    exact (Hfiles c Hc Hn). }
  destruct (@seriesVerdicts_settled _ w gameData (pluginsOf obj) modsOf df
              candidates Hall) as (vs & Hvs & _).
  destruct (issuesOf_run w gameData (pluginsOf obj) modsOf df candidates st0)
    as (evs & m & Hissues & _).
  destruct (checkForErrors_batch w state obj st0 Hfind Hdf Hdir Hne)
    as (m' & Hrun).
  fold candidates in Hrun; rewrite Hvs in Hrun, Hissues.
  rewrite (seriesEvents_settled w df (List.length candidates) candidates 0 Hall)
    in Hrun.
  exists (filterDefined vs); unfold result, events.
  rewrite Hissues, Hrun.
  split; [reflexivity|]; split; reflexivity.
Qed.

(** X6.  When the folder can be listed and no surviving plugin loads any
    surviving archive (for instance no archive in the folder, or no enabled
    plugin) the run ends after the listing: nothing is checked, shown or
    logged. *)
Theorem nothing_to_check_is_silent (gameData : GameData) (obj : Obj Plugin.t)
        (df : string) (listing : list string) :
  find (fun g => (gameId g =? game)%string) archiveData = Some gameData ->
  folder = Some df -> dirs w df = Some listing ->
  (forall p a, In p (archiveLoadersOf (pluginsOf obj)) ->
               In a (dataArchivesOf listing) -> loads p a = false) ->
  checkForErrors w state (Some obj) st0
  = (Ok tt, mkSt 0 [DismissNotification "archive-errors"; ReadDir (Some df)]).
Proof.
  intros Hfind Hdf Hdir Hnone.
  apply (checkForErrors_nothing w state obj st0 Hfind Hdf Hdir).
  destruct (candidatesOf obj listing) as [|c cs] eqn:Hc; [reflexivity|].
  exfalso.
  assert (Hin : In c (candidatesOf obj listing)) by (rewrite Hc; left; reflexivity).
  apply archivesToCheckOf_In in Hin; destruct Hin as (p & Hp & Ha & Hl & _).
  rewrite (Hnone p _ Hp Ha) in Hl; discriminate.
Qed.

(** The facts about a result notification found among the events of a
    run. *)
Lemma sent_notification_facts (pluginsObj : option (Obj Plugin.t))
        (id : string) (g : GameData) (issues : list Issue.t) :
  In (SendNotification id g issues)
     (events (checkForErrors w state pluginsObj) st0) ->
  id = "archive-errors"
  /\ issues <> []
  /\ find (fun g => (gameId g =? game)%string) archiveData = Some g
  /\ exists obj df listing,
      pluginsObj = Some obj /\ folder = Some df /\ dirs w df = Some listing
      /\ forall i,
          In i issues ->
          In (Issue.name i) listing
          /\ isDataArchive (Issue.name i) = true
          /\ detectedVersion w df (Issue.name i) = Some (Issue.version i)
          /\ Issue.version i <> version g
          /\ Issue.validVersion i = version g
          /\ exists p q,
              Issue.plugin i = Some p
              /\ In q (pluginsOf obj)
              /\ isArchiveLoader q = true
              /\ Plugin.name q = Plugin.name p
              /\ loads q (Issue.name i) = true
              /\ Issue.mod_ i = getProp modsOf (JS.propertyKey (Plugin.modName p)).
Proof.
  unfold events.
  destruct (checkForErrors_cases w state pluginsObj st0)
    as [(Hrun & _)
       |(gameData & obj & Hfind & -> &
         [(_ & Hrun)
         |(df & listing & Hdf & Hdir &
           [(_ & Hrun)|(_ & n & Hrun)])])];
    rewrite Hrun; simpl;
    try (intros H; repeat (destruct H as [H|H]; try discriminate H); destruct H).
  intros [H|[H|H]]; try discriminate H.
  apply in_app_or in H; destruct H as [H|H].
  { pose proof (seriesEvents_check df (List.length (candidatesOf obj listing)) 0
                  (candidatesOf obj listing)) as Hcheck.
    rewrite forallb_forall in Hcheck; apply Hcheck in H; discriminate H. }
  destruct (seriesVerdicts w gameData (pluginsOf obj) modsOf df
                           (candidatesOf obj listing)) as [vs|] eqn:Hs;
    [|destruct H].
  destruct H as [H|[H|[]]]; [discriminate H|].
  unfold reportOf in H.
  destruct (filterDefined vs) as [|i0 is0] eqn:Hvs; [discriminate H|].
  injection H as <- <- <-.
  split; [reflexivity|]; split; [discriminate|]; split; [exact Hfind|].
  exists obj, df, listing; repeat (split; [assumption || reflexivity|]).
  intros i Hi; rewrite <- Hvs in Hi.
  destruct (@filterDefined_verdicts gameData (pluginsOf obj) modsOf df
              (candidatesOf obj listing) vs i Hs Hi)
    as (c & v & Hc & Hv & Hne & ->).
  apply archivesToCheckOf_In in Hc.
  destruct Hc as (q & Hq & Ha & Hl & Hname).
  apply filter_In in Ha; destruct Ha as (Ha & Hext).
  apply filter_In in Hq; destruct Hq as (Hq & Hloader).
  simpl.
  split; [exact Ha|]; split; [exact Hext|]; split; [exact Hv|].
  split; [exact Hne|]; split; [reflexivity|].
  pose proof (find_by_name (pluginsOf obj) q Hq) as Hfound.
  rewrite Hname.
  destruct (find (fun p => (Plugin.name p =? Plugin.name q)%string) (pluginsOf obj))
    as [p|]; [|discriminate Hfound].
  injection Hfound as Hpq.
  exists p, q; repeat split; auto.
Qed.

(** X7.  What a result notification can be.  A run sends a result
    notification only under the identifier 'archive-errors', for the entry
    of the active game, with at least one issue; and every issue in it
    names a file of the listing with one of the two extensions, whose
    version was read and differs from the version of the game, loaded by a
    plugin that is enabled, not native and loads archives, and carries the
    plugin of that name and the value of [mods[plugin.modName]]. *)
Theorem result_notification_sound (pluginsObj : option (Obj Plugin.t))
        (id : string) (g : GameData) (issues : list Issue.t) :
  In (SendNotification id g issues)
     (events (checkForErrors w state pluginsObj) st0) ->
  id = "archive-errors"
  /\ issues <> []
  /\ find (fun g => (gameId g =? game)%string) archiveData = Some g
  /\ exists obj df listing,
      pluginsObj = Some obj /\ folder = Some df /\ dirs w df = Some listing
      /\ forall i,
          In i issues ->
          In (Issue.name i) listing
          /\ isDataArchive (Issue.name i) = true
          /\ detectedVersion w df (Issue.name i) = Some (Issue.version i)
          /\ Issue.version i <> version g
          /\ Issue.validVersion i = version g
          /\ exists p q,
              Issue.plugin i = Some p
              /\ In q (pluginsOf obj)
              /\ isArchiveLoader q = true
              /\ Plugin.name q = Plugin.name p
              /\ loads q (Issue.name i) = true
              /\ Issue.mod_ i = getProp modsOf (JS.propertyKey (Plugin.modName p)).
Proof. apply sent_notification_facts. Qed.

End BatchFacts.

(* ===================================================================== *)
(** ** More on the report *)
(* ===================================================================== *)

(** The group of a key after more issues were added. *)
Lemma lookup_fold_addOwn (issues : list Issue.t)
      (groups : Obj (list Issue.t)) (k : string) :
  lookup (fold_left addOwn issues groups) k
  = match lookup groups k with
    | Some g => Some (g ++ filter (fun i => (keyOf i =? k)%string) issues)
    | None =>
      match filter (fun i => (keyOf i =? k)%string) issues with
      | [] => None
      | l => Some l
      end
    end.
Proof.
  revert groups; induction issues as [|x issues IH]; intros groups.
  - simpl; destruct (lookup groups k); [rewrite app_nil_r|]; reflexivity.
  - simpl fold_left; rewrite IH; unfold addOwn; simpl filter.
    destruct (String.eqb_spec (keyOf x) k) as [->|Hne].
    + rewrite lookup_pushOwn_same.
      destruct (lookup groups k); [rewrite <- app_assoc|]; reflexivity.
    + rewrite lookup_pushOwn_other by congruence; reflexivity.
Qed.

Lemma keys_pushOwn (groups : Obj (list Issue.t)) (k : string) (x : Issue.t) :
  map fst (pushOwn groups k x)
  = if existsb (fun k' => (k' =? k)%string) (map fst groups)
    then map fst groups else map fst groups ++ [k].
Proof.
  induction groups as [|[k' g] r IH]; [reflexivity|]; simpl.
  destruct (String.eqb_spec k' k); simpl; [reflexivity|].
  rewrite IH; destruct (existsb _ (map fst r)); reflexivity.
Qed.

Lemma keys_pushOwn_NoDup (groups : Obj (list Issue.t)) (k : string)
      (x : Issue.t) :
  NoDup (map fst groups) -> NoDup (map fst (pushOwn groups k x)).
Proof.
  intros Hnd; rewrite keys_pushOwn.
  destruct (existsb _ (map fst groups)) eqn:He; [exact Hnd|].
  apply NoDup_app; [exact Hnd|repeat constructor; intros []|].
  intros k' Hin [<-|[]].
  assert (existsb (fun k0 => (k0 =? k)%string) (map fst groups) = true)
    by (apply existsb_exists; exists k; split; [exact Hin|apply String.eqb_refl]).
  congruence.
Qed.

Lemma keys_fold_addOwn (issues : list Issue.t) (groups : Obj (list Issue.t)) :
  NoDup (map fst groups) ->
  NoDup (map fst (fold_left addOwn issues groups))
  /\ exists more, map fst (fold_left addOwn issues groups)
                  = map fst groups ++ more.
Proof.
  revert groups; induction issues as [|x issues IH]; intros groups Hnd.
  - split; [exact Hnd|exists []; rewrite app_nil_r; reflexivity].
  - simpl; unfold addOwn at 2 4.
    destruct (IH (pushOwn groups (keyOf x) x)
                 (@keys_pushOwn_NoDup groups (keyOf x) x Hnd))
      as (Hnd' & more & Hkeys).
    split; [exact Hnd'|].
    rewrite Hkeys, keys_pushOwn.
    destruct (existsb _ (map fst groups)); [exists more; reflexivity|].
    exists (keyOf x :: more); rewrite <- app_assoc; reflexivity.
Qed.

(** With distinct keys the entries are what [lookup] finds. *)
Lemma lookup_In {A : Type} (o : Obj A) (k : string) (v : A) :
  NoDup (map fst o) -> (In (k, v) o <-> lookup o k = Some v).
Proof.
  induction o as [|[k' v'] r IH]; intros Hnd; simpl.
  - split; [intros []|discriminate].
  - inversion Hnd as [|? ? Hk Hr]; subst.
    destruct (String.eqb_spec k' k) as [->|Hne].
    + split.
      * intros [[= ->]|Hin]; [reflexivity|].
        exfalso; apply Hk; apply (in_map fst) in Hin; exact Hin.
      * intros [= ->]; left; reflexivity.
    + rewrite <- (IH Hr); split.
      * intros [[= -> _]|Hin]; [congruence|exact Hin].
      * intros Hin; right; exact Hin.
Qed.

(** Adding an issue adds it to the issues of the groups, and only it. *)
Lemma pushOwn_Permutation (groups : Obj (list Issue.t)) (k : string)
      (x : Issue.t) :
  Permutation (List.concat (map snd (pushOwn groups k x)))
              (x :: List.concat (map snd groups)).
Proof.
  induction groups as [|[k' g] r IH]; simpl.
  - reflexivity.
  - destruct (String.eqb_spec k' k); simpl.
    + rewrite <- app_assoc; simpl.
      symmetry; apply Permutation_middle.
    + rewrite IH; symmetry; apply Permutation_middle.
Qed.

Lemma fold_addOwn_Permutation (issues : list Issue.t)
      (groups : Obj (list Issue.t)) :
  Permutation (List.concat (map snd (fold_left addOwn issues groups)))
              (List.concat (map snd groups) ++ issues).
Proof.
  revert groups; induction issues as [|x issues IH]; intros groups; simpl.
  - rewrite app_nil_r; reflexivity.
  - rewrite IH; unfold addOwn; rewrite pushOwn_Permutation; simpl.
    apply Permutation_middle.
Qed.

(** The entries of the groups when no push raises. *)
Lemma ownGroupsOf_entries (issues : list Issue.t) :
  NoDup (map fst (ownGroupsOf issues))
  /\ (exists more, map fst (ownGroupsOf issues) = "noMod" :: more)
  /\ (forall k,
         lookup (ownGroupsOf issues) k
         = if ("noMod" =? k)%string
           then Some (filter (fun i => (keyOf i =? k)%string) issues)
           else match filter (fun i => (keyOf i =? k)%string) issues with
                | [] => None
                | l => Some l
                end)
  /\ (forall k g,
         In (k, g) (ownGroupsOf issues)
         <-> g = filter (fun i => (keyOf i =? k)%string) issues
             /\ (k = "noMod" \/ g <> [])).
Proof.
  unfold ownGroupsOf.
  assert (Hnd0 : NoDup (map fst [("noMod", @nil Issue.t)]))
    by (repeat constructor; intros []).
  destruct (keys_fold_addOwn issues [("noMod", [])] Hnd0) as (Hnd & more & Hkeys).
  assert (Hlook : forall k,
             lookup (fold_left addOwn issues [("noMod", [])]) k
             = if ("noMod" =? k)%string
               then Some (filter (fun i => (keyOf i =? k)%string) issues)
               else match filter (fun i => (keyOf i =? k)%string) issues with
                    | [] => None
                    | l => Some l
                    end).
  { intros k; rewrite lookup_fold_addOwn; cbn [lookup].
    destruct ("noMod" =? k)%string; reflexivity. }
  split; [exact Hnd|]; split; [exists more; exact Hkeys|].
  split; [exact Hlook|].
  intros k g; rewrite (lookup_In _ k g Hnd), Hlook.
  destruct (String.eqb_spec "noMod" k) as [<-|Hne].
  - split; [intros [= <-]; split; [reflexivity|left; reflexivity]|].
    intros (-> & _); reflexivity.
  - destruct (filter (fun i => (keyOf i =? k)%string) issues) as [|i l].
    + split; [discriminate|].
      intros (-> & [Hk|Hg]); [congruence|exfalso; apply Hg; reflexivity].
    + split; [intros [= <-]; split; [reflexivity|right; discriminate]|].
      intros (-> & _); reflexivity.
Qed.

(** The numeric keys sorted by [Object.keys]. *)
Lemma insertIndex_Permutation (k : N * string) (l : list (N * string)) :
  Permutation (insertIndex k l) (k :: l).
Proof.
  induction l as [|y r IH]; simpl; [reflexivity|].
  destruct (fst k <? fst y)%N; [reflexivity|].
  rewrite IH; apply perm_swap.
Qed.

Lemma sortIndex_Permutation (l : list (N * string)) :
  Permutation (fold_right insertIndex [] l) l.
Proof.
  induction l as [|k l IH]; simpl; [reflexivity|].
  rewrite insertIndex_Permutation, IH; reflexivity.
Qed.

Lemma ascending_cons (a : N) (l : list N) :
  ascending (a :: l) = true
  <-> Forall (fun b => (a <= b)%N) (firstn 1 l) /\ ascending l = true.
Proof.
  destruct l as [|b r]; simpl.
  - split; [intros _; split; [constructor|reflexivity]|reflexivity].
  - rewrite andb_true_iff, N.leb_le; split.
    + intros (Hab & Hr); split; [constructor; [exact Hab|constructor]|exact Hr].
    + intros (Hab & Hr); split; [exact (Forall_inv Hab)|exact Hr].
Qed.

Lemma insertIndex_ascending (k : N * string) (l : list (N * string)) :
  ascending (map fst l) = true ->
  ascending (map fst (insertIndex k l)) = true.
Proof.
  induction l as [|y r IH]; intros Hl; [reflexivity|].
  cbn [insertIndex].
  destruct (N.ltb_spec (fst k) (fst y)) as [Hlt|Hge].
  - cbn [map] in *; apply ascending_cons; split; [|exact Hl].
    constructor; [apply N.lt_le_incl; exact Hlt|constructor].
  - cbn [map] in *.
    apply ascending_cons in Hl; destruct Hl as (Hhead & Hr).
    apply ascending_cons; split; [|exact (IH Hr)].
    destruct r as [|z r']; cbn [insertIndex].
    + constructor; [exact Hge|constructor].
    + destruct (fst k <? fst z)%N; cbn [map firstn];
        (constructor; [|constructor]); [exact Hge|].
      exact (Forall_inv Hhead).
Qed.

Lemma sortIndex_ascending (l : list (N * string)) :
  ascending (map fst (fold_right insertIndex [] l)) = true.
Proof.
  induction l as [|k l IH]; [reflexivity|].
  simpl; apply insertIndex_ascending; exact IH.
Qed.

(** The pairs of the array indices among the keys. *)
Lemma indexPairs_sound (keys : list string) (p : N * string) :
  In p (flat_map (fun k => match arrayIndex k with
                           | Some n => [(n, k)]
                           | None => []
                           end) keys) ->
  In (snd p) keys /\ arrayIndex (snd p) = Some (fst p).
Proof.
  intros Hin; apply in_flat_map in Hin; destruct Hin as (k & Hk & Hp).
  destruct (arrayIndex k) as [n|] eqn:Hn; [|destruct Hp].
  destruct Hp as [<-|[]]; simpl; auto.
Qed.

Lemma indexPairs_Permutation (keys : list string) :
  Permutation
    (map snd (flat_map (fun k => match arrayIndex k with
                                 | Some n => [(n, k)]
                                 | None => []
                                 end) keys)
     ++ filter (fun k => negb (isArrayIndex k)) keys)
    keys.
Proof.
  induction keys as [|k keys IH]; [reflexivity|].
  cbn [flat_map filter]; unfold isArrayIndex at 1.
  destruct (arrayIndex k) as [n|]; cbn [negb app map].
  - constructor; exact IH.
  - symmetry; apply Permutation_cons_app; symmetry; exact IH.
Qed.

(** [Object.keys] lists every own key once. *)
Lemma objectKeys_Permutation {A : Type} (o : Obj A) :
  Permutation (objectKeys o) (map fst o).
Proof.
  unfold objectKeys.
  rewrite (Permutation_map snd (sortIndex_Permutation _)).
  apply indexPairs_Permutation.
Qed.

(** [Object.keys] lists the array indices first, in ascending order, and
    then the other keys. *)
Lemma objectKeys_order {A : Type} (o : Obj A) (more : list string) :
  map fst o = "noMod" :: more ->
  exists indices others ns,
    objectKeys o = indices ++ "noMod" :: others
    /\ map arrayIndex indices = map Some ns
    /\ ascending ns = true
    /\ Forall (fun k => isArrayIndex k = false) others.
Proof.
  intros Hkeys; unfold objectKeys; rewrite Hkeys.
  cbn [flat_map filter]; change (arrayIndex "noMod") with (@None N).
  change (isArrayIndex "noMod") with false; cbn [negb app].
  set (pairs := fold_right insertIndex []
                  (flat_map (fun k => match arrayIndex k with
                                      | Some n => [(n, k)]
                                      | None => []
                                      end) more)).
  exists (map snd pairs), (filter (fun k => negb (isArrayIndex k)) more),
         (map fst pairs).
  split; [reflexivity|]; split; [|split].
  - rewrite !map_map; apply map_ext_in; intros p Hp.
    apply (Permutation_in p (sortIndex_Permutation _)) in Hp.
    apply indexPairs_sound in Hp; tauto.
  - apply sortIndex_ascending.
  - apply Forall_forall; intros k Hk; apply filter_In in Hk.
    destruct Hk as (_ & Hk); destruct (isArrayIndex k); [discriminate|reflexivity].
Qed.

(** X8.  Grouping is a stable partition of the issues, unless it raises.
    It raises exactly when the key of some issue (the identifier of its
    mod) is the name of a property every object inherits.  Otherwise the
    keys of [groupedErrors] are distinct; the group of a key holds exactly
    the issues of that key (the identifier of the mod, or 'noMod' without a
    mod) in the order of the detector; every group but 'noMod' is
    non-empty; the groups together hold every issue as often as the
    detector gave it, none lost and none doubled; and [Object.keys] lists
    every key once: the identifiers that are array indices in ascending
    order, then 'noMod', then the other identifiers. *)
Theorem groupedErrors_stable_partition (issues : list Issue.t) :
  (groupedErrorsOf issues = None
   <-> exists i, In i issues /\ inherited (keyOf i) = true)
  /\ forall groups,
      groupedErrorsOf issues = Some groups ->
      NoDup (map fst groups)
      /\ (forall k g,
             In (k, g) groups
             <-> g = filter (fun i => (keyOf i =? k)%string) issues
                 /\ (k = "noMod" \/ g <> []))
      /\ Permutation (List.concat (map snd groups)) issues
      /\ Permutation (objectKeys groups) (map fst groups)
      /\ exists indices others ns,
          objectKeys groups = indices ++ "noMod" :: others
          /\ map arrayIndex indices = map Some ns
          /\ ascending ns = true
          /\ Forall (fun k => isArrayIndex k = false) others.
Proof.
  rewrite groupedErrorsOf_spec.
  destruct (existsb (fun i => inherited (keyOf i)) issues) eqn:Hex.
  - split; [|discriminate].
    split; [intros _; apply existsb_exists in Hex; exact Hex|reflexivity].
  - split.
    + split; [discriminate|].
      intros Hi; apply existsb_exists in Hi; congruence.
    + intros groups [= <-].
      destruct (ownGroupsOf_entries issues) as (Hnd & (more & Hkeys) & _ & Hin).
      split; [exact Hnd|]; split; [exact Hin|]; split; [|split].
      * apply (fold_addOwn_Permutation issues [("noMod", [])]).
      * apply objectKeys_Permutation.
      * apply (objectKeys_order _ Hkeys).
Qed.

(** A [map] whose function may raise. *)
Lemma allDefined_None_iff {A : Type} (l : list (option A)) :
  allDefined l = None <-> In None l.
Proof.
  induction l as [|[a|] l IH]; simpl.
  - split; [discriminate|intros []].
  - destruct (allDefined l) as [r|].
    + split; [discriminate|].
      intros [H|H]; [discriminate|]; apply IH in H; discriminate.
    + split; [intros _; right; apply IH; reflexivity|reflexivity].
  - split; [intros _; left; reflexivity|reflexivity].
Qed.

Lemma allDefined_Forall2 {A B : Type} (f : A -> option B) (l : list A)
      (r : list B) :
  allDefined (map f l) = Some r -> Forall2 (fun a b => f a = Some b) l r.
Proof.
  revert r; induction l as [|a l IH]; intros r; simpl.
  - intros [= <-]; constructor.
  - destruct (f a) as [b|] eqn:Hb; [|discriminate].
    destruct (allDefined (map f l)) as [r'|]; [|discriminate].
    intros [= <-]; constructor; [exact Hb|apply IH; reflexivity].
Qed.

(** The lines of a group whose issues all have their plugin. *)
Lemma allDefined_lines (t : string -> string) (group : list Issue.t) :
  (forall i, In i group -> Issue.plugin i <> None) ->
  exists lines,
    allDefined (map (archiveErrorOf t) group) = Some lines
    /\ map (archiveErrorOf t) group = map Some lines.
Proof.
  induction group as [|i group IH]; intros Hplug;
    [exists []; split; reflexivity|].
  destruct IH as (lines & Hall & Hl);
    [intros j Hj; apply Hplug; right; exact Hj|].
  cbn [map allDefined]; rewrite Hall, Hl; unfold archiveErrorOf.
  destruct (Issue.plugin i) as [p|] eqn:Hp;
    [|exfalso; apply (Hplug i); [left; reflexivity|exact Hp]].
  eexists (_ :: lines); split; reflexivity.
Qed.

(** The array the dialog reads for a key is the issues of the key. *)
Lemma ownArray_ownGroupsOf (issues : list Issue.t) (k : string) :
  ownArray (ownGroupsOf issues) k
  = filter (fun i => (keyOf i =? k)%string) issues.
Proof.
  destruct (ownGroupsOf_entries issues) as (_ & _ & Hlook & _).
  unfold ownArray; rewrite Hlook.
  destruct ("noMod" =? k)%string; [reflexivity|].
  destruct (filter (fun i => (keyOf i =? k)%string) issues); reflexivity.
Qed.

(** The element of [errorsByMod] for a key, the plugin of every issue
    being there: it is built from the issues of the key, and building it
    raises exactly when the mod of the first of them cannot be read. *)
Lemma sectionOf_group (t : string -> string) (issues : list Issue.t)
      (k : string) :
  (forall i, In i issues -> Issue.plugin i <> None) ->
  let group := filter (fun i => (keyOf i =? k)%string) issues in
  (group <> [] ->
   sectionOf t (k, group) = None ->
   k = "undefined"
   /\ exists i rest key, group = i :: rest /\ Issue.mod_ i = Inherited key)
  /\ (forall i rest key,
         group = i :: rest -> Issue.mod_ i = Inherited key ->
         sectionOf t (k, group) = None)
  /\ (forall s, sectionOf t (k, group) = Some s -> sectionFor t issues k s).
Proof.
  intros Hplug group.
  assert (Hkeys : forall i, In i group -> keyOf i = k /\ In i issues).
  { intros i Hi; apply filter_In in Hi; destruct Hi as (Hi & Hk).
    apply String.eqb_eq in Hk; auto. }
  destruct (allDefined_lines t group) as (lines & Hall & Hl);
    [intros i Hi; apply Hplug; apply Hkeys; exact Hi|].
  unfold sectionFor; fold group.
  unfold sectionOf, groupMod; rewrite Hall.
  destruct (String.eqb_spec k "noMod") as [->|Hk]; cbn [negb].
  - split; [|split].
    + destruct group; [congruence|discriminate].
    + intros i rest key Hg Hm.
      destruct (Hkeys i) as (Hi & _); [rewrite Hg; left; reflexivity|].
      unfold keyOf in Hi; rewrite Hm in Hi; discriminate Hi.
    + intros s; destruct group as [|i rest] eqn:Hg.
      * intros [= <-]; left; split; reflexivity.
      * intros [= <-]; right; eexists _, lines.
        split; [reflexivity|split; [discriminate|exact Hl]].
  - destruct group as [|i rest] eqn:Hg.
    + split; [congruence|]; split; [discriminate|discriminate].
    + destruct (Hkeys i) as (Hi & _); [left; reflexivity|].
      unfold keyOf in Hi.
      destruct (Issue.mod_ i) as [m|key|] eqn:Hm.
      * split; [discriminate|]; split.
        -- intros i' rest' key [= <- _] Hm'; congruence.
        -- intros s [= <-]; right; eexists _, lines.
           split; [reflexivity|split; [discriminate|exact Hl]].
      * split; [|split; [reflexivity|discriminate]].
        intros _ _; split; [symmetry; exact Hi|].
        exists i, rest, key; split; [reflexivity|exact Hm].
      * congruence.
Qed.

(** When the dialog can be built from issues that all have their
    plugin. *)
Lemma errorsByModOf_cases (t : string -> string) (issues : list Issue.t) :
  (forall i, In i issues -> Issue.plugin i <> None) ->
  (errorsByModOf t issues = None
   <-> (exists i, In i issues /\ inherited (keyOf i) = true)
       \/ (exists i rest key,
              filter (fun j => (keyOf j =? "undefined")%string) issues
              = i :: rest
              /\ Issue.mod_ i = Inherited key))
  /\ (forallb plainMod issues = true -> errorsByModOf t issues <> None)
  /\ (forall sections,
         errorsByModOf t issues = Some sections ->
         exists groups,
           groupedErrorsOf issues = Some groups
           /\ Forall2 (sectionFor t issues) (objectKeys groups) sections).
Proof.
  intros Hplug.
  assert (Hiff :
            errorsByModOf t issues = None
            <-> (exists i, In i issues /\ inherited (keyOf i) = true)
                \/ (exists i rest key,
                       filter (fun j => (keyOf j =? "undefined")%string) issues
                       = i :: rest
                       /\ Issue.mod_ i = Inherited key)).
  { unfold errorsByModOf; rewrite groupedErrorsOf_spec.
    destruct (existsb (fun i => inherited (keyOf i)) issues) eqn:Hex.
    - split; [intros _; left; apply existsb_exists in Hex; exact Hex|reflexivity].
    - destruct (ownGroupsOf_entries issues) as (Hnd & _ & _ & Hin).
      rewrite allDefined_None_iff, in_map_iff; split.
      + intros (k & Hnone & Hk); right.
        rewrite ownArray_ownGroupsOf in Hnone.
        apply (Permutation_in k (objectKeys_Permutation _)) in Hk.
        apply in_map_iff in Hk; destruct Hk as ((k' & grp) & Hfst & Hgrp).
        simpl in Hfst; subst k'.
        apply Hin in Hgrp; destruct Hgrp as (-> & Hne).
        destruct (String.eqb_spec k "noMod") as [->|Hk].
        * exfalso.
          unfold sectionOf, groupMod in Hnone.
          change ("noMod" =? "noMod")%string with true in Hnone.
          cbn [negb] in Hnone.
          destruct (allDefined_lines t
                      (filter (fun i => (keyOf i =? "noMod")%string) issues))
            as (lines & Hall & _).
          { intros i Hi; apply Hplug; apply filter_In in Hi; tauto. }
          rewrite Hall in Hnone.
          destruct (filter (fun i => (keyOf i =? "noMod")%string) issues);
            discriminate Hnone.
        * destruct Hne as [Hk'|Hne]; [contradiction|].
          destruct (sectionOf_group t issues k Hplug) as (Hraise & _ & _).
          destruct (Hraise Hne Hnone) as (-> & Hfirst); exact Hfirst.
      + intros [Hi|(i & rest & key & Hg & Hm)].
        * apply existsb_exists in Hi; congruence.
        * exists "undefined"; rewrite ownArray_ownGroupsOf; split.
          -- destruct (sectionOf_group t issues "undefined" Hplug)
               as (_ & Hraise & _).
             exact (Hraise i rest key Hg Hm).
          -- apply (Permutation_in _ (Permutation_sym (objectKeys_Permutation _))).
             apply in_map_iff; exists ("undefined", i :: rest).
             split; [reflexivity|].
             apply Hin; split; [symmetry; exact Hg|right; discriminate]. }
  split; [exact Hiff|]; split.
  - intros Hplain Hnone; rewrite forallb_forall in Hplain.
    apply Hiff in Hnone.
    destruct Hnone as [(i & Hi & Hk)|(i & rest & key & Hg & Hm)].
    + specialize (Hplain i Hi); unfold plainMod, keyOf in *.
      destruct (Issue.mod_ i) as [m| |]; simpl in *.
      * rewrite Hk in Hplain; discriminate Hplain.
      * discriminate Hplain.
      * discriminate Hk.
    + assert (Hi : In i issues).
      { assert (H : In i (filter (fun j => (keyOf j =? "undefined")%string)
                                 issues))
          by (rewrite Hg; left; reflexivity).
        apply filter_In in H; tauto. }
      specialize (Hplain i Hi); unfold plainMod in Hplain.
      rewrite Hm in Hplain; discriminate Hplain.
  - intros sections; unfold errorsByModOf; rewrite groupedErrorsOf_spec.
    destruct (existsb (fun i => inherited (keyOf i)) issues); [discriminate|].
    intros Hsome; exists (ownGroupsOf issues); split; [reflexivity|].
    apply allDefined_Forall2 in Hsome.
    induction Hsome as [|k s keys sections Hs _ IH]; constructor; [|exact IH].
    rewrite ownArray_ownGroupsOf in Hs.
    destruct (sectionOf_group t issues k Hplug) as (_ & _ & Hfor).
    exact (Hfor s Hs).
Qed.

(** The games of the table for a detected version. *)
Lemma games_of_version (v : N) :
  map gameName (filter (fun g => (version g =? v)%N) archiveData)
  = if (v =? 104)%N then ["Skyrim (2011)"]
    else if (v =? 105)%N then ["Skyrim Special Edition"; "Skyrim VR"]
    else if (v =? 103)%N then ["Oblivion"]
    else if (v =? 1)%N then ["Fallout 4"; "Fallout 4 VR"; "Fallout 76"]
    else [].
Proof.
  unfold archiveData; cbn [filter version].
  rewrite !(N.eqb_sym _ v).
  destruct (N.eqb_spec v 104) as [->|H104]; [reflexivity|].
  destruct (N.eqb_spec v 105) as [->|H105]; [reflexivity|].
  destruct (N.eqb_spec v 103) as [->|H103]; [reflexivity|].
  destruct (N.eqb_spec v 1) as [->|H1]; reflexivity.
Qed.

(** X9.  The line of the dialog for an issue names the archive, the plugin
    that loads it and the games of the table whose version is the detected
    one, joined with a slash in the order of the table: 'Skyrim (2011)' for
    104, 'Skyrim Special Edition/Skyrim VR' for 105, 'Oblivion' for 103,
    'Fallout 4/Fallout 4 VR/Fallout 76' for 1, and the translation of 'an
    unknown game' for every other version, the sentinel 0 of an unreadable
    archive among them. *)
Theorem archiveError_names_games (t : string -> string) (a : Issue.t)
        (p : Plugin.t) :
  Issue.plugin a = Some p ->
  exists line,
    archiveErrorOf t a = Some line
    /\ aeName line = Issue.name a
    /\ aePlugin line = Plugin.name p
    /\ aeGames line
       = (if (Issue.version a =? 104)%N then "Skyrim (2011)"
          else if (Issue.version a =? 105)%N
               then "Skyrim Special Edition/Skyrim VR"
          else if (Issue.version a =? 103)%N then "Oblivion"
          else if (Issue.version a =? 1)%N
               then "Fallout 4/Fallout 4 VR/Fallout 76"
          else t "an unknown game")
    /\ (Issue.version a = 0%N -> aeGames line = t "an unknown game").
Proof.
  intros Hp; unfold archiveErrorOf; rewrite Hp, games_of_version.
  eexists; split; [reflexivity|]; simpl.
  split; [reflexivity|]; split; [reflexivity|]; split.
  - destruct (Issue.version a =? 104)%N; [reflexivity|].
    destruct (Issue.version a =? 105)%N; [reflexivity|].
    destruct (Issue.version a =? 103)%N; [reflexivity|].
    destruct (Issue.version a =? 1)%N; reflexivity.
  - intros ->; reflexivity.
Qed.

(** The sentinel 0 is the version of no game of the table. *)
Lemma archiveData_versions_positive (g : GameData) :
  In g archiveData -> (0 =? version g)%N = false.
Proof.
  intros Hin; unfold archiveData in Hin.
  repeat (destruct Hin as [<-|Hin]; [reflexivity|]); destruct Hin.
Qed.

Lemma filterDefined_In {A : Type} (l : list (option A)) (a : A) :
  In (Some a) l -> In a (filterDefined l).
Proof.
  induction l as [|[x|] l IH]; simpl; [intros []| |].
  - intros [[= ->]|Hin]; [left; reflexivity|right; exact (IH Hin)].
  - intros [Hin|Hin]; [discriminate|exact (IH Hin)].
Qed.

Section Unreadable.

Context {platform : Platform}.
Variables (w : World) (state : State).

Local Abbreviation game := (activeGameId state).
Local Abbreviation folder := (dataFolderOf (discoveredPath state game)).
Local Abbreviation modsOf := (getSafe (persistentMods state game) []).
Local Abbreviation candidatesOf obj listing :=
  (archivesToCheckOf (archiveLoadersOf (pluginsOf obj)) (dataArchivesOf listing)).

(** X10.  An archive that cannot be read is always reported.  In a batch
    that completes, a candidate whose file cannot be opened or read gives
    an issue with the version 0, which is the version of no game of the
    table: the result notification is sent and holds that issue. *)
Theorem unreadable_archive_is_reported (gameData : GameData)
        (obj : Obj Plugin.t) (df : string) (listing : list string)
        (c : Archive.t) :
  let candidates := candidatesOf obj listing in
  find (fun g => (gameId g =? game)%string) archiveData = Some gameData ->
  folder = Some df -> dirs w df = Some listing ->
  (forall c', In c' candidates ->
              files w (pathJoin df (Archive.name c')) <> Readable []) ->
  In c candidates ->
  files w (pathJoin df (Archive.name c)) = Unreadable ->
  exists issues,
    In (SendNotification "archive-errors" gameData issues)
       (events (checkForErrors w state (Some obj)) st0)
    /\ In (issueOf gameData (pluginsOf obj) modsOf c 0) issues
    /\ Issue.version (issueOf gameData (pluginsOf obj) modsOf c 0) = 0%N
    /\ Issue.version (issueOf gameData (pluginsOf obj) modsOf c 0)
       <> version gameData.
Proof.
  intros candidates Hfind Hdf Hdir Hfiles Hc Hf.
  assert (Hne : candidates <> []) by (intros Hnil; rewrite Hnil in Hc; exact Hc).
  assert (Hall : forall c', In c' candidates ->
                            detectedVersion w df (Archive.name c') <> None).
  { intros c' Hc' Hn; apply detectedVersion_None_iff in Hn.
    exact (Hfiles c' Hc' Hn). }
  assert (Hgame : (0 =? version gameData)%N = false).
  { apply archiveData_versions_positive.
    apply find_some in Hfind; tauto. }
  destruct (@seriesVerdicts_settled _ w gameData (pluginsOf obj) modsOf df
              candidates Hall) as (vs & Hvs & HF).
  destruct (checkForErrors_batch w state obj st0 Hfind Hdf Hdir Hne)
    as (m & Hrun).
  fold candidates in Hrun; rewrite Hvs in Hrun.
  assert (Hissue : In (issueOf gameData (pluginsOf obj) modsOf c 0)
                      (filterDefined vs)).
  { apply filterDefined_In.
    clear Hrun Hvs Hall Hne Hfiles.
    induction HF as [|c' r l vs' (v & Hv & Hr) HF IH]; [destruct Hc|].
    destruct Hc as [->|Hc]; [|right; exact (IH Hc)].
    left; subst r.
    unfold detectedVersion in Hv; rewrite Hf in Hv; injection Hv as <-.
    unfold verdict; rewrite Hgame; reflexivity. }
  exists (filterDefined vs); unfold events; rewrite Hrun; simpl.
  split; [|split; [exact Hissue|split; [reflexivity|]]].
  - right; right; apply in_or_app; right; right; left.
    unfold reportOf; destruct (filterDefined vs); [destruct Hissue|reflexivity].
  - apply N.eqb_neq; exact Hgame.
Qed.

(** X11.  Whether the dialog can be built from a result notification.
    For the issues of a result notification a run has sent, building
    [errorsByMod] raises in two cases only: the key of some issue is the
    name of a property every object inherits (the push to its group
    raises), or the first issue of the group "undefined" carries an
    inherited value for a mod (its attributes cannot be read).  It never
    raises when every issue carries [undefined] or a mod of the registry
    whose identifier is no such name.  When it does not raise there is one
    element for each key that [Object.keys] lists, in that order, built
    from the issues of the key: the empty string when there is none, else
    a heading with one line for each issue, the plugin of every issue
    being there. *)
Theorem dialog_built_from_notification (t : string -> string)
        (pluginsObj : option (Obj Plugin.t)) (id : string) (g : GameData)
        (issues : list Issue.t) :
  In (SendNotification id g issues)
     (events (checkForErrors w state pluginsObj) st0) ->
  (errorsByModOf t issues = None
   <-> (exists i, In i issues /\ inherited (keyOf i) = true)
       \/ (exists i rest key,
              filter (fun j => (keyOf j =? "undefined")%string) issues
              = i :: rest
              /\ Issue.mod_ i = Inherited key))
  /\ (forallb plainMod issues = true -> errorsByModOf t issues <> None)
  /\ (forall sections,
         errorsByModOf t issues = Some sections ->
         exists groups,
           groupedErrorsOf issues = Some groups
           /\ Forall2 (sectionFor t issues) (objectKeys groups) sections).
Proof.
  intros Hsent.
  destruct (sent_notification_facts w state pluginsObj id g issues Hsent)
    as (_ & _ & _ & obj & df & listing & _ & _ & _ & Hissues).
  apply errorsByModOf_cases.
  intros i Hi.
  destruct (Hissues i Hi) as (_ & _ & _ & _ & _ & p & q & Hp & _).
  congruence.
Qed.

End Unreadable.

(* ===================================================================== *)
(** ** File names *)
(* ===================================================================== *)

Lemma list_ascii_app (s1 s2 : string) :
  list_ascii_of_string (s1 ++ s2)
  = list_ascii_of_string s1 ++ list_ascii_of_string s2.
Proof.
  induction s1 as [|c s1 IH]; simpl; [reflexivity|rewrite IH; reflexivity].
Qed.

Lemma length_list_ascii (s : string) :
  List.length (list_ascii_of_string s) = String.length s.
Proof.
  induction s as [|c s IH]; simpl; [reflexivity|rewrite IH; reflexivity].
Qed.

Lemma substring_full (s : string) : String.substring 0 (String.length s) s = s.
Proof.
  induction s as [|c s IH]; simpl; [reflexivity|rewrite IH; reflexivity].
Qed.

Lemma substring_app_left (s1 s2 : string) :
  String.substring 0 (String.length s1) (s1 ++ s2) = s1.
Proof.
  induction s1 as [|c s1 IH]; simpl.
  - destruct s2; reflexivity.
  - rewrite IH; reflexivity.
Qed.

Lemma substring_app_right (s1 s2 : string) :
  String.substring (String.length s1) (String.length s2) (s1 ++ s2) = s2.
Proof.
  induction s1 as [|c s1 IH]; simpl; [apply substring_full|exact IH].
Qed.

Lemma length_app_string (s1 s2 : string) :
  String.length (s1 ++ s2) = String.length s1 + String.length s2.
Proof.
  induction s1 as [|c s1 IH]; simpl; [reflexivity|rewrite IH; reflexivity].
Qed.

(** Once the end of the component is known and no dot was seen, characters
    that are neither slashes nor dots change nothing. *)
Lemma extLoop_skip_plain (chars rest : list ascii) (i : Z) (st : Path.ExtState) :
  forallb (fun c => negb (Path.isSlash c) && negb (Path.isDot c)) chars = true ->
  Path.startDot st = (-1)%Z -> Path.endIdx st <> (-1)%Z ->
  Path.extLoop (chars ++ rest) i st
  = Path.extLoop rest (i - Z.of_nat (List.length chars)) st.
Proof.
  revert i; induction chars as [|c chars IH]; intros i Hplain Hdot Hend.
  - simpl; rewrite Z.sub_0_r; reflexivity.
  - simpl in Hplain; apply andb_true_iff in Hplain; destruct Hplain as (Hc & Hrest).
    apply andb_true_iff in Hc; destruct Hc as (Hs & Hd).
    apply negb_true_iff in Hs; apply negb_true_iff in Hd.
    cbn [app Path.extLoop]; rewrite Hs, Hd.
    apply Z.eqb_neq in Hend; rewrite Hend, Hdot; cbn [Z.eqb negb].
    rewrite IH by (auto; apply Z.eqb_neq; exact Hend).
    f_equal; change (List.length (c :: chars)) with (S (List.length chars)); lia.
Qed.

(** The first of them marks the end of the component. *)
Lemma extLoop_skip_plain_init (chars rest : list ascii) (i : Z) :
  forallb (fun c => negb (Path.isSlash c) && negb (Path.isDot c)) chars = true ->
  chars <> [] -> (0 <= i)%Z ->
  Path.extLoop (chars ++ rest) i Path.extInit
  = Path.extLoop rest (i - Z.of_nat (List.length chars))
                 (Path.mkExt (-1) 0 (i + 1) false 0).
Proof.
  intros Hplain Hne Hi.
  destruct chars as [|c chars]; [congruence|].
  simpl in Hplain; apply andb_true_iff in Hplain; destruct Hplain as (Hc & Hrest).
  apply andb_true_iff in Hc; destruct Hc as (Hs & Hd).
  apply negb_true_iff in Hs; apply negb_true_iff in Hd.
  cbn [app Path.extLoop]; rewrite Hs, Hd.
  cbn [Path.extInit Path.endIdx Path.startDot Z.eqb negb Path.startPart
       Path.preDotState Path.matchedSlash].
  rewrite extLoop_skip_plain; [|exact Hrest|reflexivity|simpl; lia].
  f_equal; change (List.length (c :: chars)) with (S (List.length chars)); lia.
Qed.

(** The first dot from the right starts the extension. *)
Lemma extLoop_dot (rest : list ascii) (i e : Z) :
  e <> (-1)%Z ->
  Path.extLoop ("."%char :: rest) i (Path.mkExt (-1) 0 e false 0)
  = Path.extLoop rest (i - 1) (Path.mkExt i 0 e false 0).
Proof.
  intros He; cbn [Path.extLoop].
  change (Path.isSlash ".") with false; change (Path.isDot ".") with true.
  cbn [Path.endIdx Path.startDot Path.startPart Path.matchedSlash
       Path.preDotState].
  destruct (Z.eqb_spec e (-1)); [contradiction|reflexivity].
Qed.

(** After the dot, characters that are not slashes leave the dot and the
    end where they are and record that something stands before the dot. *)
Lemma extLoop_before_dot (chars : list ascii) (i : Z) (st : Path.ExtState) :
  forallb (fun c => negb (Path.isSlash c)) chars = true ->
  Path.startDot st <> (-1)%Z -> Path.endIdx st <> (-1)%Z ->
  chars <> [] \/ Path.preDotState st <> 0%Z ->
  exists p,
    p <> 0%Z
    /\ (p = 1%Z -> chars <> [] \/ Path.preDotState st = 1%Z)
    /\ Path.extLoop chars i st
       = Path.mkExt (Path.startDot st) (Path.startPart st) (Path.endIdx st)
                    (Path.matchedSlash st) p.
Proof.
  revert i st; induction chars as [|c chars IH]; intros i st Hns Hdot Hend Hpre.
  - destruct Hpre as [Hne|Hp]; [congruence|].
    exists (Path.preDotState st); split; [exact Hp|]; split; [auto|].
    destruct st; reflexivity.
  - simpl in Hns; apply andb_true_iff in Hns; destruct Hns as (Hs & Hrest).
    apply negb_true_iff in Hs.
    cbn [Path.extLoop]; rewrite Hs.
    pose proof Hend as Hend'; apply Z.eqb_neq in Hend'; rewrite Hend'.
    pose proof Hdot as Hdot'; apply Z.eqb_neq in Hdot'; rewrite Hdot'.
    cbn [negb].
    match goal with
    | |- context [Path.extLoop chars (i - 1) ?s] =>
      destruct (IH (i - 1)%Z s) as (p & Hp0 & _ & Hrun)
    end; auto.
    + destruct (Path.isDot c); [destruct (Path.preDotState st =? 1)%Z|];
        simpl; exact Hdot.
    + destruct (Path.isDot c); [destruct (Path.preDotState st =? 1)%Z|];
        simpl; exact Hend.
    + right.
      destruct (Path.isDot c);
        [destruct (Z.eqb_spec (Path.preDotState st) 1)|]; simpl; lia.
    + exists p; split; [exact Hp0|]; split; [intros _; left; discriminate|].
      rewrite Hrun.
      destruct (Path.isDot c); [destruct (Path.preDotState st =? 1)%Z|];
        reflexivity.
Qed.

(** The extension of "base.e": a non-empty [base] without a slash, a
    non-empty [e] with neither a slash nor a dot. *)
Lemma extname_of_dotted (base e : string) :
  noSlash base = true -> base <> "" -> plain e = true -> e <> "" ->
  Path.extname (base ++ "." ++ e) = ("." ++ e)%string.
Proof.
  intros Hbase Hbne He Hene.
  unfold Path.extname.
  rewrite !list_ascii_app, !rev_app_distr, <- !app_assoc.
  change (rev (list_ascii_of_string ".")) with ["."%char].
  cbn [app].
  rewrite !length_app_string; cbn [String.length].
  assert (Hle : 0 < String.length e) by (destruct e; [congruence|simpl; lia]).
  assert (Hlb : 0 < String.length base) by (destruct base; [congruence|simpl; lia]).
  rewrite extLoop_skip_plain_init;
    [|unfold plain in He; rewrite forallb_forall in *;
      intros c Hc; apply He, in_rev; exact Hc
     |intros Hnil; apply (f_equal (@List.length ascii)) in Hnil;
      rewrite length_rev, length_list_ascii in Hnil; simpl in Hnil; lia
     |lia].
  rewrite length_rev, length_list_ascii.
  rewrite extLoop_dot by lia.
  match goal with
  | |- context [Path.extLoop (rev (list_ascii_of_string base)) ?i ?s] =>
    destruct (@extLoop_before_dot (rev (list_ascii_of_string base)) i s)
      as (p & Hp0 & _ & Hrun)
  end.
  - unfold noSlash in Hbase; rewrite forallb_forall in *.
    intros c Hc; apply Hbase, in_rev; exact Hc.
  - simpl; lia.
  - simpl; lia.
  - left; intros Hnil.
    apply (f_equal (@List.length ascii)) in Hnil.
    rewrite length_rev, length_list_ascii in Hnil; simpl in Hnil; lia.
  - rewrite Hrun; clear Hrun.
    cbn [Path.startDot Path.endIdx Path.preDotState Path.startPart
         Path.matchedSlash].
    replace (Z.of_nat (String.length base + (1 + String.length e)) - 1
             - Z.of_nat (String.length e))%Z
      with (Z.of_nat (String.length base)) by lia.
    replace (Z.of_nat (String.length base + (1 + String.length e)) - 1 + 1)%Z
      with (Z.of_nat (String.length base + (1 + String.length e))) by lia.
    destruct (Z.eqb_spec (Z.of_nat (String.length base)) (-1)); [lia|].
    destruct (Z.eqb_spec (Z.of_nat (String.length base + (1 + String.length e)))
                         (-1)); [lia|].
    destruct (Z.eqb_spec p 0); [contradiction|].
    destruct (Z.eqb_spec (Z.of_nat (String.length base))
                (Z.of_nat (String.length base + (1 + String.length e)) - 1));
      [lia|].
    rewrite andb_false_r; cbn [orb andb].
    unfold JS.slice; rewrite !Nat2Z.id.
    replace (String.length base + (1 + String.length e) - String.length base)
      with (String.length ("." ++ e)) by (simpl; lia).
    apply substring_app_right.
Qed.

Lemma baseLoop_noSlash (chars : list ascii) (i : Z) (st : Path.BaseState) :
  forallb (fun c => negb (Path.isSlash c)) chars = true ->
  Path.bEnd st <> (-1)%Z ->
  Path.baseLoop chars i st = st.
Proof.
  revert i; induction chars as [|c chars IH]; intros i Hns Hend; [reflexivity|].
  simpl in Hns; apply andb_true_iff in Hns; destruct Hns as (Hs & Hrest).
  apply negb_true_iff in Hs.
  cbn [Path.baseLoop]; rewrite Hs.
  destruct (Z.eqb_spec (Path.bEnd st) (-1)); [contradiction|].
  apply IH; assumption.
Qed.

Lemma baseLoop_first (c : ascii) (chars : list ascii) (i : Z) :
  Path.isSlash c = false ->
  Path.baseLoop (c :: chars) i (Path.mkBase 0 (-1) true)
  = Path.baseLoop chars (i - 1) (Path.mkBase 0 (i + 1) false).
Proof. intros Hs; cbn [Path.baseLoop]; rewrite Hs; reflexivity. Qed.

(** The base name of a name without a slash is the name. *)
Lemma basename_noSlash (s : string) :
  noSlash s = true -> Path.basename s = s.
Proof.
  intros Hns; unfold Path.basename.
  destruct (rev (list_ascii_of_string s)) as [|c chars] eqn:Hrev.
  - apply (f_equal (@List.length ascii)) in Hrev.
    rewrite length_rev, length_list_ascii in Hrev.
    destruct s; [reflexivity|discriminate].
  - assert (Hall : forallb (fun c => negb (Path.isSlash c)) (c :: chars) = true).
    { rewrite <- Hrev; unfold noSlash in Hns; rewrite forallb_forall in *.
      intros x Hx; apply Hns, in_rev; exact Hx. }
    simpl in Hall; apply andb_true_iff in Hall; destruct Hall as (Hs & Hrest).
    apply negb_true_iff in Hs.
    rewrite (@baseLoop_first c chars _ Hs).
    assert (Hlen : 0 < String.length s).
    { apply (f_equal (@List.length ascii)) in Hrev.
      rewrite length_rev, length_list_ascii in Hrev; simpl in Hrev; lia. }
    rewrite baseLoop_noSlash by (auto; simpl; lia).
    cbn [Path.bEnd Path.bStart].
    destruct (Z.eqb_spec (Z.of_nat (String.length s) - 1 + 1) (-1)); [lia|].
    unfold JS.slice.
    replace (Z.to_nat (Z.of_nat (String.length s) - 1 + 1) - Z.to_nat 0)
      with (String.length s) by lia.
    apply substring_full.
Qed.

Lemma prefix_refl (s : string) : String.prefix s s = true.
Proof.
  induction s as [|c s IH]; simpl; [reflexivity|].
  destruct (ascii_dec c c); [exact IH|congruence].
Qed.

Lemma drop_length (s : string) : JS.drop (String.length s) s = "".
Proof. induction s as [|c s IH]; simpl; [reflexivity|exact IH]. Qed.

(** [replace] removes the extension at the end when the name holds no
    other dot. *)
Lemma replace_extension (base e : string) :
  plain base = true ->
  JS.replace (base ++ "." ++ e) ("." ++ e) "" = base.
Proof.
  intros Hbase; induction base as [|c base IH].
  - cbn [append JS.replace].
    change (String.prefix (String "." e) (String "." e))
      with (String.prefix ("." ++ e) ("." ++ e)).
    rewrite prefix_refl.
    change (String "." e) with ("." ++ e)%string.
    rewrite drop_length; reflexivity.
  - unfold plain in Hbase; simpl in Hbase.
    apply andb_true_iff in Hbase; destruct Hbase as (Hc & Hrest).
    apply andb_true_iff in Hc; destruct Hc as (_ & Hd).
    apply negb_true_iff in Hd.
    change ((String c base ++ "." ++ e)%string)
      with (String c (base ++ "." ++ e)).
    change ("." ++ e)%string with (String "." e) at 2.
    cbn [JS.replace String.prefix].
    destruct (ascii_dec "." c) as [<-|Hne]; [discriminate Hd|].
    f_equal; apply IH; exact Hrest.
Qed.

Lemma plain_noSlash (s : string) : plain s = true -> noSlash s = true.
Proof.
  unfold plain, noSlash; rewrite !forallb_forall.
  intros H c Hc; specialize (H c Hc).
  apply andb_true_iff in H; tauto.
Qed.

(** X12.  The filter on a name of the form "base.e" (a non-empty [base]
    without a slash, a non-empty [e] with neither a slash nor a dot): the
    file is kept exactly when [e] is "ba2" or "bsa", letter for letter.
    Names such as "x.BSA", "x.Bsa", "x.bsa.bak" or "x.bsa2" are dropped. *)
Theorem archive_filter_on_extension (base e : string) :
  noSlash base = true -> base <> "" -> plain e = true -> e <> "" ->
  Path.extname (base ++ "." ++ e) = ("." ++ e)%string
  /\ isDataArchive (base ++ "." ++ e) = ((e =? "ba2") || (e =? "bsa"))%string
  /\ forall listing,
      In (base ++ "." ++ e)%string (dataArchivesOf listing)
      <-> In (base ++ "." ++ e)%string listing /\ (e = "ba2" \/ e = "bsa").
Proof.
  intros Hbase Hbne He Hene.
  pose proof (extname_of_dotted Hbase Hbne He Hene) as Hext.
  assert (Hkeep : isDataArchive (base ++ "." ++ e)
                  = ((e =? "ba2") || (e =? "bsa"))%string).
  { unfold isDataArchive; rewrite Hext; unfold existsb.
    change (".ba2" =? "." ++ e)%string with ("ba2" =? e)%string.
    change (".bsa" =? "." ++ e)%string with ("bsa" =? e)%string.
    rewrite orb_false_r, (String.eqb_sym "ba2"), (String.eqb_sym "bsa").
    reflexivity. }
  split; [exact Hext|]; split; [exact Hkeep|].
  intros listing; unfold dataArchivesOf; rewrite filter_In, Hkeep.
  rewrite orb_true_iff, !String.eqb_eq; reflexivity.
Qed.

Lemma archive_filter_on_extension_witness :
  isDataArchive "Mod - Textures.bsa" = true
  /\ isDataArchive "Mod - Textures.BSA" = false.
Proof.
  split.
  - exact (proj1 (proj2 (@archive_filter_on_extension "Mod - Textures" "bsa"
                           eq_refl ltac:(discriminate) eq_refl
                           ltac:(discriminate)))).
  - exact (proj1 (proj2 (@archive_filter_on_extension "Mod - Textures" "BSA"
                           eq_refl ltac:(discriminate) eq_refl
                           ltac:(discriminate)))).
Defined.

(** X13.  For a plugin named "base.e" with no other dot (and no slash)
    the match key is [base] lower-cased, which is the name without its
    extension, lower-cased; and the plugin loads an entry of the directory
    exactly when the entry, lower-cased, starts with that key, whatever the
    case of the entry and of the plugin name. *)
Theorem match_key_of_simple_name (p : Plugin.t) (base e : string) :
  Plugin.name p = (base ++ "." ++ e)%string ->
  plain base = true -> base <> "" -> plain e = true -> e <> "" ->
  pNameOf p = JS.toLowerCase base
  /\ matchKeySpec p = JS.toLowerCase base
  /\ forall a,
      noSlash a = true ->
      loads p a = JS.startsWith (JS.toLowerCase a) (JS.toLowerCase base).
Proof.
  intros Hname Hbase Hbne He Hene.
  pose proof (extname_of_dotted (plain_noSlash base Hbase) Hbne He Hene) as Hext.
  assert (Hkey : pNameOf p = JS.toLowerCase base).
  { unfold pNameOf; rewrite Hname, Hext, replace_extension by exact Hbase.
    reflexivity. }
  split; [exact Hkey|]; split.
  - unfold matchKeySpec; cbv zeta; rewrite Hname, Hext.
    assert (Hn : String.length (base ++ "." ++ e) - String.length ("." ++ e) - 0
                 = String.length base)
      by (rewrite length_app_string; lia).
    unfold JS.slice; rewrite Hn, substring_app_left; reflexivity.
  - intros a Ha; unfold loads; rewrite Hkey, (basename_noSlash a Ha).
    reflexivity.
Qed.

Lemma match_key_of_simple_name_witness :
  pNameOf (loader "Foo.ESP" 0 None) = "foo"
  /\ loads (loader "Foo.ESP" 0 None) "FOO - Textures.bsa"
     = JS.startsWith (JS.toLowerCase "FOO - Textures.bsa") (JS.toLowerCase "Foo").
Proof.
  destruct (@match_key_of_simple_name (loader "Foo.ESP" 0 None) "Foo" "ESP"
              eq_refl eq_refl ltac:(discriminate) eq_refl ltac:(discriminate))
    as (Hkey & _ & Hloads).
  split; [exact Hkey|exact (Hloads "FOO - Textures.bsa" eq_refl)].
Defined.

Lemma check_events_no_listing (evs : list Event) :
  forallb isCheckEvent evs = true -> filter isDirRead evs = [].
Proof.
  induction evs as [|e evs IH]; [reflexivity|]; simpl.
  intros H; apply andb_true_iff in H; destruct H as (He & Hrest).
  destruct e; simpl in *; try discriminate He; exact (IH Hrest).
Qed.

Section Listing.

Context {platform : Platform}.
Variables (w : World) (state : State).

Local Abbreviation game := (activeGameId state).
Local Abbreviation folder := (dataFolderOf (discoveredPath state game)).

(** X14.  The data folder is listed exactly when the game is in the table
    and the plugin object is there, whether or not any plugin is enabled
    or loads an archive; it is then listed once, and the folder listed is
    the 'data' folder of the discovered path (or [undefined]). *)
Theorem data_folder_listed_once (pluginsObj : option (Obj Plugin.t)) :
  let evs := events (checkForErrors w state pluginsObj) st0 in
  (In game (map gameId archiveData) -> pluginsObj <> None ->
   filter isDirRead evs = [ReadDir folder])
  /\ (~ In game (map gameId archiveData) \/ pluginsObj = None ->
      filter isDirRead evs = []).
Proof.
  intros evs; subst evs; unfold events.
  destruct (checkForErrors_cases w state pluginsObj st0)
    as [(Hrun & Hwhy)
       |(gameData & obj & Hfind & -> &
         [(_ & Hrun)
         |(df & listing & Hdf & Hdir &
           [(_ & Hrun)|(_ & n & Hrun)])])];
    rewrite Hrun; cbn [snd trace st0 app].
  - split; [|reflexivity].
    intros Hin Hobj; destruct Hwhy; contradiction.
  - split; [reflexivity|].
    intros [Hno|Hno]; [|discriminate].
    exfalso; apply Hno; eapply find_game_In; exact Hfind.
  - split; [rewrite Hdf; reflexivity|].
    intros [Hno|Hno]; [|discriminate].
    exfalso; apply Hno; eapply find_game_In; exact Hfind.
  - split.
    + intros _ _; rewrite Hdf; cbn [filter isDirRead].
      rewrite filter_app, (check_events_no_listing _ (seriesEvents_check w df _ 0 _)).
      destruct (seriesVerdicts w gameData (pluginsOf obj) _ df _) as [vs|];
        [|reflexivity].
      unfold reportOf; destruct (filterDefined vs); reflexivity.
    + intros [Hno|Hno]; [|discriminate].
      exfalso; apply Hno; eapply find_game_In; exact Hfind.
Qed.

End Listing.

Lemma data_folder_listed_once_witness :
  filter isDirRead
         (events (checkForErrors (platform := posix) sampleWorld
                                 (stateOf "skyrimse" []) (Some [])) st0)
  = [ReadDir (Some "/game/data")].
Proof.
  apply (proj1 (@data_folder_listed_once posix sampleWorld
                  (stateOf "skyrimse" []) (Some []))).
  - vm_compute; right; left; reflexivity.
  - discriminate.
Defined.

(* ===================================================================== *)
(** ** The further theorems on concrete runs *)
(* ===================================================================== *)

Lemma checkForErrors_completes_unless_empty_archive_witness :
  result (checkForErrors (platform := posix) sampleWorld (stateOf "skyrimse" [])
                         (Some emptyPlugins)) st0 = Never.
Proof.
  apply (proj2 (proj2 (checkForErrors_completes_unless_empty_archive
                         (platform := posix) sampleWorld (stateOf "skyrimse" [])
                         (Some emptyPlugins) st0))).
  exists emptyPlugins, "/game/data",
         ["good.bsa"; "short.bsa"; "empty.bsa"; "gone.bsa"],
         (Archive.mk "empty.bsa" "empty.esp").
  split; [reflexivity|]; split; [vm_compute; right; left; reflexivity|].
  split; [reflexivity|]; split; [reflexivity|].
  split; [vm_compute; left; reflexivity|reflexivity].
Defined.

Lemma checkForErrors_one_stream_at_a_time_witness :
  destroyPending None
    (events (checkForErrors (platform := posix) fooWorld
                            (stateOf "skyrimse" fooMods) (Some fooObj)) st0)
  = Some None.
Proof.
  destruct (checkForErrors_one_stream_at_a_time (platform := posix) fooWorld
              (stateOf "skyrimse" fooMods) (Some fooObj))
    as (pending & Hpending & Hdone).
  rewrite Hpending, (Hdone eq_refl); reflexivity.
Defined.

Lemma completed_batch_events_witness :
  exists issues,
    events (checkForErrors (platform := posix) fooWorld
                           (stateOf "skyrimse" fooMods) (Some fooObj)) st0
    = [DismissNotification "archive-errors"; ReadDir (Some "/game/data");
       AddNotification "checking-archives-all" 0 2 "foo - textures.bsa";
       CreateReadStream "/game/data/foo - textures.bsa";
       StreamDestroy "/game/data/foo - textures.bsa";
       AddNotification "checking-archives-all" 100 2 "foo - textures.bsa";
       CreateReadStream "/game/data/foo - textures.bsa";
       StreamDestroy "/game/data/foo - textures.bsa";
       DismissNotification "checking-archives-all";
       reportOf skyrimse issues].
Proof.
  destruct (@completed_batch_events posix fooWorld (stateOf "skyrimse" fooMods)
              skyrimse fooObj "/game/data" ["foo - textures.bsa"])
    as (issues & _ & _ & Hevents).
  - reflexivity.
  - reflexivity.
  - reflexivity.
  - vm_compute; discriminate.
  - vm_compute; intros c [<-|[<-|[]]]; discriminate.
  - exists issues; exact Hevents.
Defined.

Lemma nothing_to_check_is_silent_witness :
  checkForErrors (platform := posix) sampleWorld (stateOf "skyrimse" [])
                 (Some idleObj) st0
  = (Ok tt, mkSt 0 [DismissNotification "archive-errors";
                    ReadDir (Some "/game/data")]).
Proof.
  apply (@nothing_to_check_is_silent posix sampleWorld (stateOf "skyrimse" [])
           skyrimse idleObj "/game/data"
           ["good.bsa"; "short.bsa"; "empty.bsa"; "gone.bsa"]).
  - reflexivity.
  - reflexivity.
  - reflexivity.
  - intros p a Hp Ha; vm_compute in Hp; vm_compute in Ha.
    destruct Hp as [<-|[]].
    destruct Ha as [<-|[<-|[<-|[<-|[]]]]]; vm_compute; reflexivity.
Defined.

Lemma result_notification_sound_witness :
  fooReported <> []
  /\ find (fun g => (gameId g =? "skyrimse")%string) archiveData = Some skyrimse.
Proof.
  destruct (@result_notification_sound posix fooWorld
              (stateOf "skyrimse" fooMods) (Some fooObj) "archive-errors"
              skyrimse fooReported)
    as (_ & Hne & Hfind & _).
  - vm_compute; do 9 right; left; reflexivity.
  - split; [exact Hne|exact Hfind].
Defined.

Lemma groupedErrors_stable_partition_witness :
  exists groups,
    groupedErrorsOf numberedIssues = Some groups
    /\ objectKeys groups = ["7"; "42"; "noMod"; "foo-mod"]
    /\ In ("noMod", [fooIssue "b.bsa" Undefined]) groups
    /\ Permutation (List.concat (map snd groups)) numberedIssues.
Proof.
  eexists; split; [vm_compute; reflexivity|].
  split; [vm_compute; reflexivity|].
  destruct (proj2 (groupedErrors_stable_partition numberedIssues)
                  _ eq_refl) as (_ & Hin & Hperm & _).
  split; [|exact Hperm].
  apply Hin; split; [reflexivity|left; reflexivity].
Defined.

Lemma archiveError_names_games_witness :
  exists line,
    archiveErrorOf (fun s => s) (fooIssue "foo.bsa" (Own fooMod)) = Some line
    /\ aeGames line = "Skyrim (2011)".
Proof.
  destruct (@archiveError_names_games (fun s => s)
              (fooIssue "foo.bsa" (Own fooMod))
              (loader "Foo.esp" 0 (Some "foo-mod")) eq_refl)
    as (line & Hline & _ & _ & Hgames & _).
  exists line; split; [exact Hline|exact Hgames].
Defined.

Lemma unreadable_archive_is_reported_witness :
  exists issues,
    In (SendNotification "archive-errors" skyrimse issues)
       (events (checkForErrors (platform := posix) sampleWorld
                               (stateOf "skyrimse" []) (Some goneObj)) st0)
    /\ In (issueOf skyrimse (pluginsOf (platform := posix) goneObj) []
                   (Archive.mk "gone.bsa" "gone.esp") 0) issues.
Proof.
  destruct (@unreadable_archive_is_reported posix sampleWorld
              (stateOf "skyrimse" []) skyrimse goneObj "/game/data"
              ["good.bsa"; "short.bsa"; "empty.bsa"; "gone.bsa"]
              (Archive.mk "gone.bsa" "gone.esp"))
    as (issues & Hsent & Hin & _).
  - reflexivity.
  - reflexivity.
  - reflexivity.
  - vm_compute; intros c [<-|[]]; discriminate.
  - vm_compute; left; reflexivity.
  - reflexivity.
  - exists issues; split; [exact Hsent|exact Hin].
Defined.

Lemma dialog_built_from_notification_witness :
  errorsByModOf (fun s => s) fooReported <> None
  /\ exists groups,
      groupedErrorsOf fooReported = Some groups
      /\ Forall2 (sectionFor (fun s => s) fooReported) (objectKeys groups)
                 [ModSection "not managed by Vortex"
                             [mkArchiveError "foo - textures.bsa"
                                             "Skyrim (2011)"
                                             "Foo - Textures.esp"];
                  ModSection ": Foo"
                             [mkArchiveError "foo - textures.bsa"
                                             "Skyrim (2011)" "Foo.esp"]].
Proof.
  destruct (@dialog_built_from_notification posix fooWorld
              (stateOf "skyrimse" fooMods) (fun s => s) (Some fooObj)
              "archive-errors" skyrimse fooReported)
    as (_ & Hplain & Hsections).
  - vm_compute; do 9 right; left; reflexivity.
  - split; [exact (Hplain eq_refl)|].
    apply Hsections; vm_compute; reflexivity.
Defined.
